(** * import-xml-into-mdb: streaming XML to document-store import

    A shallow embedding of [import-xml-into-mdb.py].  The program streams
    an XML file, and for every occurrence of a repeating element found at
    an exact ancestor path it translates the branch into a nested
    dictionary/array value, appends it to a batch, bulk-inserts batches
    into a MongoDB collection and clears the branch from memory.

    Layout: Python primitives, the XML tree with node handles, the
    translated values, the functions of the script in source order, and
    then the properties. *)

From Stdlib Require Import List String Ascii Arith Bool Lia.
Import ListNotations.
Local Open Scope string_scope.
Local Open Scope list_scope.

Set Implicit Arguments.
Set Warnings "-register-all,-abstract-large-number".


(* ================================================================= *)
(** ** Python strings *)

(** [str.isspace] on one character.  Characters are code points below
    256: TAB, LF, VT, FF, CR, the separators 28-31, SPACE, NEL and NBSP. *)
Definition is_space (c : ascii) : bool :=
  let n := nat_of_ascii c in
  ((9 <=? n)%nat && (n <=? 13)%nat) || ((28 <=? n)%nat && (n <=? 32)%nat)
  || (n =? 133)%nat || (n =? 160)%nat.

Fixpoint lstrip_chars (l : list ascii) : list ascii :=
  match l with
  | [] => []
  | c :: l' => if is_space c then lstrip_chars l' else l
  end.

(** [s.strip()] *)
Definition strip (s : string) : string :=
  string_of_list_ascii
    (rev (lstrip_chars (rev (lstrip_chars (list_ascii_of_string s))))).

(** Truth value of a string: non-empty. *)
Definition str_truthy (s : string) : bool :=
  match s with
  | EmptyString => false
  | String _ _ => true
  end.

Fixpoint split_from (sep : ascii) (cur : string) (s : string) : list string :=
  match s with
  | EmptyString => [cur]
  | String c s' =>
      if Ascii.eqb c sep
      then cur :: split_from sep EmptyString s'
      else split_from sep (cur ++ String c EmptyString)%string s'
  end.

(** [s.split(sep)] for a one-character separator. *)
Definition split (sep : ascii) (s : string) : list string :=
  split_from sep EmptyString s.

(** [x in list] on strings. *)
Definition str_in (x : string) (l : list string) : bool :=
  existsb (String.eqb x) l.

(** [l[-1]] and [l[-2]]; [None] stands for IndexError. *)
Definition index_last {A : Type} (l : list A) : option A :=
  nth_error (rev l) 0.

Definition index_second_last {A : Type} (l : list A) : option A :=
  nth_error (rev l) 1.

(* ================================================================= *)
(** ** The XML tree and node handles *)

(** An lxml element: tag, attribute items in document order, the direct
    text before the first child, and the child elements.  Documents are
    taken to hold elements only (no comments or processing instructions
    among the children). *)
Inductive Element : Type :=
  Elem { tag : string;
         attrib : list (string * string);
         text : option string;
         children : list Element }.

(** The tree built by the parser is one shared, mutable object.  A node
    handle addresses an element inside it by the child indices leading to
    it, nearest index first, so that the parent's handle is the tail and
    the root's handle is empty. *)
Definition Node : Type := list nat.

Fixpoint subtree (path : list nat) (e : Element) : option Element :=
  match path with
  | [] => Some e
  | i :: p =>
      match nth_error (children e) i with
      | Some c => subtree p c
      | None => None
      end
  end.

(** Dereference of a handle in the current tree. *)
Definition elem_at (doc : Element) (n : Node) : option Element :=
  subtree (rev n) doc.

(** [elem.getparent()] *)
Definition getparent (n : Node) : option Node :=
  match n with
  | [] => None
  | _ :: up => Some up
  end.

Fixpoint update_nth {A : Type} (i : nat) (f : A -> A) (l : list A) : list A :=
  match l, i with
  | [], _ => []
  | x :: l', 0 => f x :: l'
  | x :: l', S j => x :: update_nth j f l'
  end.

Fixpoint update_at (f : Element -> Element) (path : list nat) (e : Element)
  : Element :=
  match path with
  | [] => f e
  | i :: p =>
      match e with
      | Elem t a x cs => Elem t a x (update_nth i (update_at f p) cs)
      end
  end.

(** What [elem.clear()] leaves of an element: its tag only. *)
Definition cleared (e : Element) : Element :=
  Elem (tag e) [] None [].

(** [elem.clear()] on the element behind a handle, as a tree update. *)
Definition clear (doc : Element) (n : Node) : Element :=
  update_at cleared (rev n) doc.

(** [f i x] for each element [x] of a list and its index [i] (counted
    from [start]), concatenated. *)
Definition flat_mapi {A B : Type} (f : nat -> A -> list B)
  : nat -> list A -> list B :=
  fix over (start : nat) (l : list A) : list B :=
    match l with
    | [] => []
    | x :: l' => f start x ++ over (S start) l'
    end.

(** End-of-element events of a whole document in the order the parser
    fires them: the events of each child in turn, then the element. *)
Fixpoint end_events (here : Node) (e : Element) : list Node :=
  match e with
  | Elem _ _ _ cs =>
      flat_mapi (fun i c => end_events (i :: here) c) 0 cs ++ [here]
  end.

Definition tag_at (doc : Element) (n : Node) : option string :=
  option_map tag (elem_at doc n).

Definition has_tag (doc : Element) (name : string) (n : Node) : bool :=
  match tag_at doc n with
  | Some t => String.eqb t name
  | None => false
  end.

(** [etree.iterparse(file, events=('end',), tag=name)]: the handles of the
    elements named [name], in end-event order.  When an event fires the
    element's own subtree and its chain of ancestors are complete, which
    is all the script ever reads.  The model is for a non-empty [name];
    lxml refuses an empty tag name. *)
Definition iterparse (doc : Element) (name : string) : list Node :=
  filter (has_tag doc name) (end_events [] doc).

(* ================================================================= *)
(** ** Translated values and Python dictionaries *)

(** What translation produces: text, a list, or a dictionary.  A
    dictionary keeps insertion order, so it is an association list whose
    keys are kept distinct by the operations below. *)
Inductive Value : Type :=
| VStr (s : string)
| VList (items : list Value)
| VDict (entries : list (string * Value)).

Definition dict : Type := list (string * Value).

(** Truth value of a translated value ([if child:], [if record_dict:]). *)
Definition truthy (v : Value) : bool :=
  match v with
  | VStr s => str_truthy s
  | VList [] => false
  | VList (_ :: _) => true
  | VDict [] => false
  | VDict (_ :: _) => true
  end.

(** [type(v) is dict] *)
Definition is_dict (v : Value) : bool :=
  match v with
  | VDict _ => true
  | _ => false
  end.

(** [key in d] *)
Definition key_in (key : string) (d : dict) : bool :=
  existsb (fun kv => String.eqb (fst kv) key) d.

(** [d.get(key)] *)
Fixpoint dict_get (key : string) (d : dict) : option Value :=
  match d with
  | [] => None
  | (k, v) :: d' => if String.eqb k key then Some v else dict_get key d'
  end.

(** [d[key] = v]: replaces in place when the key exists, otherwise
    appends at the end. *)
Fixpoint dict_set (key : string) (v : Value) (d : dict) : dict :=
  match d with
  | [] => [(key, v)]
  | (k, w) :: d' =>
      if String.eqb k key then (k, v) :: d' else (k, w) :: dict_set key v d'
  end.

(** [d[key].append(v)] for a key that is present.  Only list entries are
    ever appended to by the script; other entries are left as they are. *)
Fixpoint dict_append (key : string) (v : Value) (d : dict) : dict :=
  match d with
  | [] => []
  | (k, w) :: d' =>
      if String.eqb k key
      then (k, match w with VList l => VList (l ++ [v]) | _ => w end) :: d'
      else (k, w) :: dict_append key v d'
  end.

(* ================================================================= *)
(** ** Constants of the script *)

Definition DEFAULT_MONGODB_URL : string := "mongodb://localhost:27017".
Definition DEFAULT_DB_NAME : string := "test".
Definition MDB_BATCH_INSERT_SIZE : nat := 1000.
Definition INSERT_COUNT_STATUS_THRESHOLD : nat := 100000.
Definition VALUE_FIELD_PREFIX : string := "val".

(* ================================================================= *)
(** ** [set_unique_key_val_if_exists] *)

(** The [while keyfield in record_dict] loop.  Each round lengthens the
    key by one underscore, so at most [length record_dict] rounds can
    find the key present; the loop is run with that many rounds of fuel
    ([unique_key_fresh] below shows the exit condition holds on return). *)
Fixpoint unique_key_loop (fuel : nat) (record_dict : dict) (keyfield : string)
  : string :=
  match fuel with
  | 0 => keyfield
  | S fuel' =>
      if key_in keyfield record_dict
      then unique_key_loop fuel' record_dict ("_" ++ keyfield)%string
      else keyfield
  end.

Definition unique_key (record_dict : dict) (key : string) : string :=
  unique_key_loop (List.length record_dict) record_dict key.

Definition set_unique_key_val_if_exists
  (record_dict : dict) (key : string) (value : string) : dict :=
  if str_truthy key && str_truthy value
  then dict_set (unique_key record_dict key) (VStr value) record_dict
  else record_dict.

(* ================================================================= *)
(** ** [recurse_element_descending] *)

(** One round of the loop over [elem.getchildren()], given the child's
    translation. *)
Definition add_child (ignore_list : list string) (depth : nat)
  (child_tag : string) (child : Value) (result : dict) : dict :=
  if truthy child && ((1 <? depth)%nat || negb (str_in child_tag ignore_list))
  then
    if negb (key_in child_tag result)
    then dict_set child_tag (VList [child]) result
    else dict_append child_tag child result
  else result.

(** The loop over [elem.items()]. *)
Definition add_attributes (items : list (string * string)) (result : dict)
  : dict :=
  fold_left
    (fun r item => set_unique_key_val_if_exists r (fst item) (snd item))
    items result.

(** [if elem.text and elem.text.strip()] *)
Definition has_text (t : option string) : bool :=
  match t with
  | Some s => str_truthy s && str_truthy (strip s)
  | None => false
  end.

(** The last statement block: attach or substitute the direct text. *)
Definition add_text (t : option string) (result : dict) : Value :=
  match t with
  | Some s =>
      if has_text t
      then
        if truthy (VDict result)
        then VDict (set_unique_key_val_if_exists result VALUE_FIELD_PREFIX s)
        else VStr s
      else VDict result
  | None => VDict result
  end.

Fixpoint recurse_element_descending
  (elem : Element) (ignore_list : list string) (depth : nat) : Value :=
  match elem with
  | Elem _ items t cs =>
      let result :=
        fold_left
          (fun r child_elem =>
             add_child ignore_list depth (tag child_elem)
               (recurse_element_descending child_elem ignore_list (S depth)) r)
          cs [] in
      let result := add_attributes items result in
      add_text t result
  end.

(* ================================================================= *)
(** ** [is_matching_repeating_element] *)

(** The loop over [reversed(axis_path)] with [curr_elem] walking up. *)
Fixpoint match_upwards (doc : Element) (sections : list string)
  (curr_elem : option Node) : bool :=
  match sections with
  | [] =>
      match curr_elem with
      | Some _ => false
      | None => true
      end
  | section :: rest =>
      match curr_elem with
      | None => false
      | Some n =>
          match tag_at doc n with
          | Some t =>
              if negb (String.eqb section t) then false
              else match_upwards doc rest (getparent n)
          | None => false
          end
      end
  end.

Definition is_matching_repeating_element
  (doc : Element) (axis_path : list string) (elem : Node) : bool :=
  match_upwards doc (rev axis_path) (Some elem).

(* ================================================================= *)
(** ** Effects: the event trace and the error monad *)

(** [coll = MongoClient(host=url)[dbname][collname]] *)
Record Collection : Type :=
  { coll_url : string; coll_db : string; coll_name : string }.

Inductive Message : Type :=
| MsgProcessing (axis_path : list string) (xml_filepath : string)
| MsgOpening (url : string)
| MsgRecordsInserted (count : nat)
| MsgIngestDuration.

(** Everything the script does to the outside world, and to the parsed
    tree, in the order it happens. *)
Inductive Event : Type :=
| EvPrint (m : Message)
| EvConnect (url : string)
| EvDrop (coll : Collection)
| EvIterparse (xml_filepath : string) (name : string)
| EvInsertMany (coll : Collection) (documents : list Value)
| EvClear (elem : Node).

Inductive exn : Type :=
| NameError (name : string)
| IndexError
| OSError (xml_filepath : string).

Inductive result (A : Type) : Type :=
| Ok (a : A)
| Raise (e : exn).

Arguments Ok {A} a.
Arguments Raise {A} e.

(** A computation extends the trace and returns or raises; the events
    emitted before an exception stay in the trace. *)
Definition M (A : Type) : Type := list Event -> result A * list Event.

Definition ret {A : Type} (a : A) : M A := fun tr => (Ok a, tr).

Definition bind {A B : Type} (c : M A) (k : A -> M B) : M B :=
  fun tr =>
    match c tr with
    | (Ok a, tr') => k a tr'
    | (Raise e, tr') => (Raise e, tr')
    end.

Definition raise {A : Type} (e : exn) : M A := fun tr => (Raise e, tr).

Definition emit (ev : Event) : M unit := fun tr => (Ok tt, tr ++ [ev]).

Definition lift {A : Type} (e : exn) (o : option A) : M A :=
  match o with
  | Some a => ret a
  | None => raise e
  end.

Notation "x <- c ;; k" := (bind c (fun x => k))
  (at level 61, c at next level, right associativity).
Notation "c ;;; k" := (bind c (fun _ => k))
  (at level 61, right associativity).

(** The files on disk: [Some doc] when the path can be opened and holds
    the well-formed document [doc], [None] when it cannot be opened.  A
    file that opens but is truncated or malformed is outside this model. *)
Definition FileSystem : Type := string -> option Element.

(* ================================================================= *)
(** ** [insert_array_elements_into_db] *)

(** The variables the [for] loop updates, with the parsed tree (which
    [elem.clear()] mutates) and the trace. *)
Record LoopState : Type :=
  { tree : Element;
    count : nat;
    records_batch : list Value;
    events : list Event }.

Section Ingest.

(** [MDB_BATCH_INSERT_SIZE] and [INSERT_COUNT_STATUS_THRESHOLD]; both
    are positive constants in the script, and so [%] never divides by
    zero. *)
Variables batch_size status_threshold : nat.

Variable coll : Collection.
Variable axis_path : list string.
Variable ignore_list : list string.

(** The body of [for event, elem in context].  A handle that matches
    always dereferences ([matching_dereferences] below), so the [None]
    branch is never taken. *)
Definition loop_body (st : LoopState) (elem : Node) : LoopState :=
  if is_matching_repeating_element (tree st) axis_path elem then
    match elem_at (tree st) elem with
    | Some e =>
        let record_dict := recurse_element_descending e ignore_list 1 in
        if truthy record_dict then
          let record_dict :=
            if negb (is_dict record_dict)
            then VDict [(VALUE_FIELD_PREFIX, record_dict)]
            else record_dict in
          let batch := records_batch st ++ [record_dict] in
          let flush := (count st mod batch_size =? 0)%nat in
          let evs :=
            if flush then events st ++ [EvInsertMany coll batch]
            else events st in
          let batch := if flush then [] else batch in
          let evs :=
            if (count st mod status_threshold =? 0)%nat && (0 <? count st)%nat
            then evs ++ [EvPrint (MsgRecordsInserted (count st))]
            else evs in
          {| tree := clear (tree st) elem;
             count := S (count st);
             records_batch := batch;
             events := evs ++ [EvClear elem] |}
        else st
    | None => st
    end
  else st.

Definition for_loop (doc : Element) (context : list Node)
  (tr : list Event) : LoopState :=
  fold_left loop_body context
    {| tree := doc; count := 0; records_batch := []; events := tr |}.

Definition insert_array_elements_into_db_sized
  (fs : FileSystem) (xml_filepath : string) : M unit :=
  repeating_xml_name <- lift IndexError (index_last axis_path) ;;
  emit (EvIterparse xml_filepath repeating_xml_name) ;;;
  doc <- lift (OSError xml_filepath) (fs xml_filepath) ;;
  st <- (fun tr =>
           let st := for_loop doc (iterparse doc repeating_xml_name) tr in
           (Ok st, events st)) ;;
  match records_batch st with
  | [] => ret tt
  | _ :: _ => emit (EvInsertMany coll (records_batch st))
  end ;;;
  emit (EvPrint (MsgRecordsInserted (count st))).

End Ingest.

Definition insert_array_elements_into_db
  (fs : FileSystem) (xml_filepath : string) (axis_path ignore_list : list string)
  (coll : Collection) : M unit :=
  insert_array_elements_into_db_sized
    MDB_BATCH_INSERT_SIZE INSERT_COUNT_STATUS_THRESHOLD
    coll axis_path ignore_list fs xml_filepath.

(* ================================================================= *)
(** ** [run] and [main] *)

(** [run], for a server that is reachable at [url] and carries out every
    command, and for database and collection names the driver accepts
    ([database_name_ok], [collection_name_ok] below). *)
Definition run (fs : FileSystem) (xml_filepath : string)
  (axis_path ignore_list : list string) (url dbname collname : string)
  : M unit :=
  emit (EvPrint (MsgProcessing axis_path xml_filepath)) ;;;
  emit (EvPrint (MsgOpening url)) ;;;
  emit (EvConnect url) ;;;
  let coll := {| coll_url := url; coll_db := dbname; coll_name := collname |} in
  emit (EvDrop coll) ;;;
  insert_array_elements_into_db fs xml_filepath axis_path ignore_list coll ;;;
  emit (EvPrint MsgIngestDuration).

(** The parsed command line; an option that was not given is [None]. *)
Record Args : Type :=
  { file : string;
    repeatingpath : string;
    ignore : option string;
    database : option string;
    collection : option string;
    url : option string }.

Definition opt_truthy (o : option string) : bool :=
  match o with
  | Some s => str_truthy s
  | None => false
  end.

Definition with_default (o : option string) (d : string) : string :=
  match o with
  | Some s => s
  | None => d
  end.

(** The script never imports [sys], so evaluating [sys.exit] raises
    NameError; the run is aborted by that exception. *)
Definition main (fs : FileSystem) (args : Args) : M unit :=
  let axis_path := map strip (split "/" (repeatingpath args)) in
  if (List.length axis_path <? 2)%nat then raise (NameError "sys")
  else
    collname <- (if negb (opt_truthy (collection args))
                 then lift IndexError (index_second_last axis_path)
                 else ret (with_default (collection args) "")) ;;
    let ignore_list :=
      if opt_truthy (ignore args)
      then map strip (split "," (with_default (ignore args) ""))
      else [] in
    run fs (file args) axis_path ignore_list
      (with_default (url args) DEFAULT_MONGODB_URL)
      (with_default (database args) DEFAULT_DB_NAME)
      collname.

(* ================================================================= *)
(** ** Observations on traces and trees used by the properties *)

(** The argument of every [insert_many] call, in call order. *)
Definition inserted_batches (tr : list Event) : list (list Value) :=
  flat_map (fun ev => match ev with
                      | EvInsertMany _ b => [b]
                      | _ => []
                      end) tr.

(** The elements [clear()] was called on, in call order. *)
Definition cleared_nodes (tr : list Event) : list Node :=
  flat_map (fun ev => match ev with
                      | EvClear n => [n]
                      | _ => []
                      end) tr.

(** Events that read the XML source or write to the database. *)
Definition is_stream_or_db_event (ev : Event) : bool :=
  match ev with
  | EvPrint _ => false
  | _ => true
  end.

(** The tags from an element up to the root, the element's own first. *)
Fixpoint lineage (doc : Element) (n : Node) : list (option string) :=
  match n with
  | [] => [tag_at doc []]
  | _ :: up => tag_at doc n :: lineage doc up
  end.

(** The document the loop appends for a translated branch. *)
Definition as_document (record_dict : Value) : Value :=
  if negb (is_dict record_dict)
  then VDict [(VALUE_FIELD_PREFIX, record_dict)]
  else record_dict.

(** The document a yielded element contributes, if it is accepted: it
    matches the axis path and its translation is not empty. *)
Definition accepted (doc : Element) (axis_path ignore_list : list string)
  (elem : Node) : option Value :=
  if is_matching_repeating_element doc axis_path elem then
    match elem_at doc elem with
    | Some e =>
        let r := recurse_element_descending e ignore_list 1 in
        if truthy r then Some (as_document r) else None
    | None => None
    end
  else None.

(** The translated documents of a whole source document, in stream order,
    read off the tree as parsed (before any clearing). *)
Definition accepted_documents (doc : Element)
  (axis_path ignore_list : list string) : list Value :=
  match index_last axis_path with
  | Some name =>
      flat_map (fun n => match accepted doc axis_path ignore_list n with
                         | Some d => [d]
                         | None => []
                         end) (iterparse doc name)
  | None => []
  end.

Definition is_accepted (doc : Element) (axis_path ignore_list : list string)
  (elem : Node) : bool :=
  match accepted doc axis_path ignore_list elem with
  | Some _ => true
  | None => false
  end.

(** Every document appended so far, in order: those already inserted and
    those still pending in the batch. *)
Definition emitted (st : LoopState) : list Value :=
  List.concat (inserted_batches (events st)) ++ records_batch st.

(** The sizes of the batches the loop has inserted once [t] documents
    were appended, and the number then pending, for batch size [b]. *)
Definition loop_batch_sizes (b t : nat) : list nat :=
  match t with
  | 0 => []
  | S k => 1 :: repeat b (k / b)
  end.

Definition pending (b t : nat) : nat :=
  match t with
  | 0 => 0
  | S k => k mod b
  end.

(** Loop invariant: the batches inserted so far (after those of sizes
    [base] that were there before the loop) and the pending batch have
    the sizes the count dictates. *)
Definition sized (batch_size : nat) (base : list nat) (st : LoopState) : Prop :=
  map (@List.length Value) (inserted_batches (events st))
  = base ++ loop_batch_sizes batch_size (count st)
  /\ List.length (records_batch st) = pending batch_size (count st).

(** Whether the loop over the children keeps child [c], whose
    translation is [translate c]. *)
Definition keeps (ignore_list : list string) (depth : nat)
  (translate : Element -> Value) (c : Element) : bool :=
  truthy (translate c)
  && ((1 <? depth)%nat || negb (str_in (tag c) ignore_list)).

(** The kept children tagged [key], in document order. *)
Definition group (ignore_list : list string) (depth : nat)
  (translate : Element -> Value) (key : string) (cs : list Element)
  : list Element :=
  filter (fun c => String.eqb (tag c) key && keeps ignore_list depth translate c)
         cs.

(** One round of the loop over the children, as a step on the result. *)
Definition child_step (ignore_list : list string) (depth : nat)
  (translate : Element -> Value) (r : dict) (c : Element) : dict :=
  add_child ignore_list depth (tag c) (translate c) r.

(** [r] is the dictionary the loop has built from the children [seen]:
    distinct keys, and under each tag the list of the translations of
    the kept children with that tag. *)
Definition groups (ignore_list : list string) (depth : nat)
  (translate : Element -> Value) (r : dict) (seen : list Element) : Prop :=
  NoDup (map fst r)
  /\ forall key,
      dict_get key r =
      match group ignore_list depth translate key seen with
      | [] => None
      | g => Some (VList (map translate g))
      end.

(** The children of [elem] that its translation at [depth] keeps under
    key [key]. *)
Definition kept_children (ignore_list : list string) (depth : nat)
  (key : string) (elem : Element) : list Element :=
  group ignore_list depth
    (fun c => recurse_element_descending c ignore_list (S depth))
    key (children elem).

(** Entries whose key is at least as long as [key]: each round of the
    underscore loop strictly shrinks this list. *)
Definition at_least_as_long (key : string) (d : dict) : dict :=
  filter (fun kv => (String.length key <=? String.length (fst kv))%nat) d.

(** [elem] without its children whose tag is in the ignore list. *)
Definition without_ignored (ignore_list : list string) (elem : Element)
  : Element :=
  Elem (tag elem) (attrib elem) (text elem)
       (filter (fun c => negb (str_in (tag c) ignore_list)) (children elem)).

(** Builders for the worked examples. *)
Definition leaf (t s : string) : Element := Elem t [] (Some s) [].
Definition branch (t : string) (cs : list Element) : Element :=
  Elem t [] None cs.

(** [<item><note>A</note><sub><note>B</note></sub></item>] *)
Definition ignore_example : Element :=
  branch "item" [leaf "note" "A"; branch "sub" [leaf "note" "B"]].

(** [<ROOT><ITEMS><ITEM>x</ITEM></ITEMS></ROOT>], the same branch under
    another root, and the same document wrapped in one more ancestor. *)
Definition anchored_doc : Element :=
  branch "ROOT" [branch "ITEMS" [leaf "ITEM" "x"]].
Definition other_root_doc : Element :=
  branch "OTHER" [branch "ITEMS" [leaf "ITEM" "x"]].
Definition wrapped_doc : Element := branch "TOP" [anchored_doc].

(** A document with one [ITEM] on the axis path and one elsewhere. *)
Definition stray_doc : Element :=
  branch "ROOT" [branch "ITEMS" [leaf "ITEM" "x"];
                 branch "OTHER" [leaf "ITEM" "y"]].

(** Documents with two and with four repeating branches. *)
Definition two_items_doc : Element :=
  branch "DATA"
    [branch "ITEMS" [branch "ITEM" [leaf "name" "Bob"];
                     branch "ITEM" [leaf "name" "Alice"]]].
Definition four_items_doc : Element :=
  branch "DATA"
    [branch "ITEMS" [leaf "ITEM" "a"; leaf "ITEM" "b";
                     leaf "ITEM" "c"; leaf "ITEM" "d"]].

Definition example_coll : Collection :=
  {| coll_url := DEFAULT_MONGODB_URL;
     coll_db := DEFAULT_DB_NAME;
     coll_name := "ITEMS" |}.

(** A disk on which every path holds [doc]. *)
Definition on_disk (doc : Element) : FileSystem := fun _ => Some doc.

(** Underscore prefixing: [underscores n key] is [key] behind [n]
    underscores. *)
Fixpoint underscores (n : nat) (key : string) : string :=
  match n with
  | 0 => key
  | S n' => ("_" ++ underscores n' key)%string
  end.

Definition ceil_div (t b : nat) : nat := (t + b - 1) / b.

(* ================================================================= *)
(** ** Further observations *)

(** The strings at the leaves of a translated value, left to right. *)
Fixpoint leaves (v : Value) : list string :=
  match v with
  | VStr s => [s]
  | VList l => flat_map leaves l
  | VDict d => flat_map (fun kv => leaves (snd kv)) d
  end.

(** An attribute the translation keeps: name and value both non-empty. *)
Definition kept_attribute (item : string * string) : bool :=
  str_truthy (fst item) && str_truthy (snd item).

(** The strings the translation reads from a subtree of elements: the
    values of the kept attributes and the non-blank [text] of each
    element, that is, the text before its first child.  Text that follows
    a child element (lxml's tail) is in no [text] field: the script never
    reads it, and [Element] does not carry it. *)
Fixpoint read_strings (e : Element) : list string :=
  match e with
  | Elem _ items x cs =>
      flat_map read_strings cs
      ++ map snd (filter kept_attribute items)
      ++ (if has_text x then match x with Some s => [s] | None => [] end
          else [])
  end.

(** A value as the translation builds it: strings are non-empty, lists
    are non-empty and hold non-empty values, dictionaries have distinct
    keys and hold non-empty values. *)
Inductive well_formed : Value -> Prop :=
| wf_str (s : string) :
    str_truthy s = true -> well_formed (VStr s)
| wf_list (l : list Value) :
    l <> [] ->
    Forall well_formed l ->
    Forall (fun v => truthy v = true) l ->
    well_formed (VList l)
| wf_dict (d : dict) :
    NoDup (map fst d) ->
    Forall (fun kv => well_formed (snd kv)) d ->
    Forall (fun kv => truthy (snd kv) = true) d ->
    well_formed (VDict d).


(** The number of occurrences of a character in a string. *)
Fixpoint count_char (c : ascii) (s : string) : nat :=
  match s with
  | EmptyString => 0
  | String c' s' => (if Ascii.eqb c' c then 1 else 0) + count_char c s'
  end.

(** The collection an event writes to or drops, if it is such an event. *)
Definition event_collection (ev : Event) : option Collection :=
  match ev with
  | EvDrop c => Some c
  | EvInsertMany c _ => Some c
  | _ => None
  end.

(** The messages printed, in order. *)
Definition printed (tr : list Event) : list Message :=
  flat_map (fun ev => match ev with
                      | EvPrint m => [m]
                      | _ => []
                      end) tr.

(** The counts at which the loop reports progress while [t] documents
    are appended: the positive multiples of the threshold below [t]. *)
Definition progress_counts (status_threshold t : nat) : list nat :=
  filter (fun c => (c mod status_threshold =? 0)%nat && (0 <? c)%nat)
         (seq 0 t).

(** Names the MongoDB driver accepts without raising InvalidName, stated
    as a sufficient condition: a database name is non-empty and has no
    space, dot, dollar, slash, backslash, NUL or double quote; a
    collection name is non-empty and has no dot, dollar or NUL. *)
Definition database_name_ok (s : string) : bool :=
  str_truthy s
  && forallb
       (fun c => negb (existsb (Ascii.eqb c)
                         (map ascii_of_nat [32; 46; 36; 47; 92; 0; 34])))
       (list_ascii_of_string s).

Definition collection_name_ok (s : string) : bool :=
  str_truthy s
  && forallb
       (fun c => negb (existsb (Ascii.eqb c) (map ascii_of_nat [46; 36; 0])))
       (list_ascii_of_string s).

(** The collection name [main] hands to [run]: the option when it is
    given and not empty, otherwise the second-to-last axis segment. *)
Definition chosen_collection (args : Args) : option string :=
  if negb (opt_truthy (collection args))
  then index_second_last (map strip (split "/" (repeatingpath args)))
  else Some (with_default (collection args) "").

(** What the ingest function may do to the database: insert into the
    collection it was given; it neither connects nor drops. *)
Definition ingest_event (coll : Collection) (ev : Event) : Prop :=
  match ev with
  | EvConnect _ => False
  | EvDrop _ => False
  | EvInsertMany c _ => c = coll
  | _ => True
  end.

(* ================================================================= *)
(** * Properties *)

(** ** Dictionaries *)

Lemma key_in_app (key : string) (d1 d2 : dict) :
  key_in key (d1 ++ d2) = key_in key d1 || key_in key d2.
Proof. unfold key_in. apply existsb_app. Qed.

Lemma key_in_false_get (key : string) (d : dict) :
  key_in key d = false <-> dict_get key d = None.
Proof.
  induction d as [|[k v] d IH]; simpl; [tauto|].
  destruct (String.eqb k key); simpl; [split; discriminate | exact IH].
Qed.

Lemma dict_set_fresh (key : string) (v : Value) (d : dict) :
  key_in key d = false -> dict_set key v d = d ++ [(key, v)].
Proof.
  induction d as [|[k w] d IH]; simpl; intros H; [reflexivity|].
  destruct (String.eqb k key); simpl in H; [discriminate|].
  now rewrite IH.
Qed.

Lemma dict_get_app (key : string) (d1 d2 : dict) :
  dict_get key (d1 ++ d2) =
  match dict_get key d1 with
  | Some v => Some v
  | None => dict_get key d2
  end.
Proof.
  induction d1 as [|[k v] d1 IH]; simpl; [reflexivity|].
  now destruct (String.eqb k key).
Qed.

Lemma dict_get_app_present (key : string) (d1 d2 : dict) :
  key_in key d1 = true -> dict_get key (d1 ++ d2) = dict_get key d1.
Proof.
  intros H. rewrite dict_get_app.
  destruct (dict_get key d1) eqn:E; [reflexivity|].
  apply key_in_false_get in E. congruence.
Qed.

(** ** The underscore loop terminates within its fuel *)

Lemma at_least_as_long_le (key : string) (d : dict) :
  List.length (at_least_as_long key d) <= List.length d.
Proof. apply filter_length_le. Qed.

Lemma filter_length_mono {A : Type} (p q : A -> bool) (l : list A) :
  (forall x, p x = true -> q x = true) ->
  List.length (filter p l) <= List.length (filter q l).
Proof.
  intros Hpq. induction l as [|x l IH]; simpl; [lia|].
  destruct (p x) eqn:Hp.
  - rewrite (Hpq x Hp). simpl. lia.
  - destruct (q x); simpl; lia.
Qed.

Lemma filter_length_strict {A : Type} (p q : A -> bool) (l : list A) (x : A) :
  (forall y, p y = true -> q y = true) ->
  In x l -> q x = true -> p x = false ->
  List.length (filter p l) < List.length (filter q l).
Proof.
  intros Hpq Hin Hq Hp. induction l as [|y l IH]; simpl; [contradiction|].
  destruct Hin as [->|Hin].
  - rewrite Hp, Hq. simpl.
    pose proof (filter_length_mono p q l Hpq). lia.
  - specialize (IH Hin). destruct (p y) eqn:Hpy.
    + rewrite (Hpq y Hpy). simpl. lia.
    + destruct (q y); simpl; lia.
Qed.

Lemma at_least_as_long_shrinks (key : string) (d : dict) :
  key_in key d = true ->
  List.length (at_least_as_long ("_" ++ key) d)
  < List.length (at_least_as_long key d).
Proof.
  intros H. unfold key_in in H. apply existsb_exists in H.
  destruct H as ([k v] & Hin & Hk). simpl in Hk.
  apply String.eqb_eq in Hk. subst k.
  unfold at_least_as_long. apply filter_length_strict with (x := (key, v)).
  - intros [k w]. cbn [fst]. intros Hle.
    apply Nat.leb_le in Hle. apply Nat.leb_le.
    change (String.length ("_" ++ key)) with (S (String.length key)) in Hle.
    lia.
  - exact Hin.
  - cbn [fst]. apply Nat.leb_refl.
  - cbn [fst]. apply Nat.leb_gt.
    change (String.length ("_" ++ key)) with (S (String.length key)). lia.
Qed.

Lemma underscores_shift (n : nat) (key : string) :
  underscores n ("_" ++ key) = underscores (S n) key.
Proof.
  induction n as [|n IH]; [reflexivity|].
  cbn [underscores]. rewrite IH. reflexivity.
Qed.

Lemma unique_key_loop_spec (fuel : nat) :
  forall (d : dict) (key : string),
    List.length (at_least_as_long key d) <= fuel ->
    exists n,
      unique_key_loop fuel d key = underscores n key
      /\ key_in (underscores n key) d = false
      /\ (forall j, j < n -> key_in (underscores j key) d = true).
Proof.
  induction fuel as [|fuel IH]; intros d key Hfuel; cbn [unique_key_loop].
  - exists 0. cbn [underscores]. split; [reflexivity|]. split; [|intros; lia].
    destruct (key_in key d) eqn:E; [|reflexivity].
    apply at_least_as_long_shrinks in E. lia.
  - destruct (key_in key d) eqn:E.
    + destruct (IH d ("_" ++ key)%string) as (n & Hres & Hfresh & Hbelow).
      { apply at_least_as_long_shrinks in E. lia. }
      rewrite underscores_shift in Hres, Hfresh.
      exists (S n). split; [exact Hres|]. split; [exact Hfresh|].
      intros [|j] Hj; [exact E|].
      rewrite <- underscores_shift. apply Hbelow. lia.
    + exists 0. cbn [underscores].
      split; [reflexivity|]. split; [exact E|intros; lia].
Qed.

(** On return from the loop the key is not in the dictionary: the fuel
    never cuts the loop short. *)
Lemma unique_key_spec (d : dict) (key : string) :
  exists n,
    unique_key d key = underscores n key
    /\ key_in (underscores n key) d = false
    /\ (forall j, j < n -> key_in (underscores j key) d = true).
Proof. apply unique_key_loop_spec, at_least_as_long_le. Qed.

Lemma unique_key_fresh (d : dict) (key : string) :
  key_in (unique_key d key) d = false.
Proof.
  destruct (unique_key_spec d key) as (n & -> & H & _). exact H.
Qed.

(** More fuel changes nothing. *)
Lemma unique_key_loop_enough (fuel : nat) (d : dict) (key : string) :
  List.length d <= fuel -> unique_key_loop fuel d key = unique_key d key.
Proof.
  intros Hfuel.
  destruct (unique_key_loop_spec (fuel := fuel) d key) as (n & -> & Hn & Hlt).
  { pose proof (at_least_as_long_le key d). lia. }
  destruct (unique_key_spec d key) as (m & -> & Hm & Hlt').
  destruct (Nat.lt_trichotomy n m) as [H|[->|H]]; [|reflexivity|].
  - rewrite (Hlt' n H) in Hn. discriminate.
  - rewrite (Hlt m H) in Hm. discriminate.
Qed.

Lemma set_unique_key_val_appends (d : dict) (key value : string) :
  str_truthy key = true -> str_truthy value = true ->
  set_unique_key_val_if_exists d key value
  = d ++ [(unique_key d key, VStr value)].
Proof.
  intros Hk Hv. unfold set_unique_key_val_if_exists. rewrite Hk, Hv. simpl.
  apply dict_set_fresh, unique_key_fresh.
Qed.

(** Whatever its arguments, the function only ever extends the
    dictionary at the end, by at most one text entry. *)
Lemma set_unique_key_val_shape (d : dict) (key value : string) :
  exists extra,
    set_unique_key_val_if_exists d key value = d ++ extra
    /\ (forall k v, In (k, v) extra -> exists s, v = VStr s).
Proof.
  unfold set_unique_key_val_if_exists.
  destruct (str_truthy key && str_truthy value).
  - exists [(unique_key d key, VStr value)]. split.
    + apply dict_set_fresh, unique_key_fresh.
    + intros k v [H|[]]. inversion H. now exists value.
  - exists []. split; [now rewrite app_nil_r|]. intros k v [].
Qed.

(** ** Induction over element trees *)

Lemma Element_ind_nested (P : Element -> Prop) :
  (forall t a x cs, Forall P cs -> P (Elem t a x cs)) ->
  forall e, P e.
Proof.
  intros step. fix self 1. intros [t a x cs]. apply step.
  induction cs as [|c cs IHcs]; constructor; [apply self | exact IHcs].
Qed.


(** ** The loop over the children groups them by tag *)

Section ChildrenLoop.

Variable ignore_list : list string.
Variable depth : nat.
(** The translation of a child (the recursive call). *)
Variable translate : Element -> Value.

Local Abbreviation keeps := (keeps ignore_list depth translate).
Local Abbreviation group := (group ignore_list depth translate).
Local Abbreviation groups := (groups ignore_list depth translate).
Local Abbreviation step := (child_step ignore_list depth translate).

Lemma dict_append_keys (key : string) (v : Value) (d : dict) :
  map fst (dict_append key v d) = map fst d.
Proof.
  induction d as [|[k w] d IH]; simpl; [reflexivity|].
  destruct (String.eqb k key); simpl; [reflexivity | now rewrite IH].
Qed.

Lemma dict_get_append (key k : string) (v : Value) (d : dict) :
  dict_get key (dict_append k v d) =
  if String.eqb k key
  then match dict_get k d with
       | Some (VList l) => Some (VList (l ++ [v]))
       | o => o
       end
  else dict_get key d.
Proof.
  induction d as [|[k' w] d IH]; simpl.
  - now destruct (String.eqb k key).
  - destruct (String.eqb_spec k' k) as [->|Hne]; simpl.
    + destruct (String.eqb k key); [now destruct w | reflexivity].
    + rewrite IH. destruct (String.eqb_spec k key) as [->|Hne'].
      * destruct (String.eqb_spec k' key); [congruence | reflexivity].
      * reflexivity.
Qed.

Lemma key_in_keys (key : string) (d : dict) :
  key_in key d = true <-> In key (map fst d).
Proof.
  unfold key_in. rewrite existsb_exists, in_map_iff. split.
  - intros ([k v] & Hin & Hk). apply String.eqb_eq in Hk.
    now exists (k, v).
  - intros ([k v] & Hk & Hin). exists (k, v). split; [exact Hin|].
    now apply String.eqb_eq.
Qed.

Lemma group_app (key : string) (l1 l2 : list Element) :
  group key (l1 ++ l2) = group key l1 ++ group key l2.
Proof. apply filter_app. Qed.

Lemma groups_step (r : dict) (seen : list Element) (c : Element) :
  groups r seen -> groups (step r c) (seen ++ [c]).
Proof.
  intros [Hnd Hget]. unfold child_step, add_child. fold (keeps c).
  destruct (keeps c) eqn:Hk.
  - destruct (key_in (tag c) r) eqn:Hin; simpl.
    + (* the tag has an entry: append to its list *)
      split; [now rewrite dict_append_keys|].
      intros key. rewrite dict_get_append, group_app. simpl.
      destruct (String.eqb_spec (tag c) key) as [<-|Hne].
      * rewrite Hk, Hget. simpl.
        destruct (group (tag c) seen) as [|g gs] eqn:Hg.
        -- specialize (Hget (tag c)). rewrite Hg in Hget.
           apply key_in_false_get in Hget. congruence.
        -- simpl. now rewrite map_app.
      * rewrite app_nil_r. apply Hget.
    + (* a new tag: a one-element list at the end *)
      rewrite dict_set_fresh by exact Hin. split.
      * rewrite map_app. simpl.
        apply NoDup_app.
        -- exact Hnd.
        -- repeat constructor. intros [].
        -- intros k Hk1 [<-|[]]. apply key_in_keys in Hk1. congruence.
      * intros key. rewrite dict_get_app, group_app. simpl.
        destruct (String.eqb_spec (tag c) key) as [<-|Hne].
        -- rewrite Hk. simpl.
           apply key_in_false_get in Hin. rewrite Hin.
           rewrite Hget in Hin.
           destruct (group (tag c) seen); [reflexivity | discriminate].
        -- rewrite app_nil_r. rewrite Hget.
           now destruct (group key seen).
  - split; [exact Hnd|]. intros key. rewrite group_app. simpl.
    rewrite Hk, andb_false_r, app_nil_r. apply Hget.
Qed.

Lemma groups_fold (cs : list Element) :
  forall r seen, groups r seen -> groups (fold_left step cs r) (seen ++ cs).
Proof.
  induction cs as [|c cs IH]; intros r seen H; simpl.
  - now rewrite app_nil_r.
  - replace (seen ++ c :: cs) with ((seen ++ [c]) ++ cs)
      by now rewrite <- app_assoc.
    apply IH, groups_step, H.
Qed.

Lemma groups_children (cs : list Element) :
  groups (fold_left step cs []) cs.
Proof.
  apply (groups_fold cs (r := []) (seen := [])).
  split; [constructor | reflexivity].
Qed.

Lemma groups_entry (r : dict) (seen : list Element) (key : string) (v : Value) :
  groups r seen -> In (key, v) r ->
  group key seen <> [] /\ v = VList (map translate (group key seen)).
Proof.
  intros [Hnd Hget] Hin.
  assert (Hv : dict_get key r = Some v).
  { clear Hget. induction r as [|[k w] r IH]; [contradiction|].
    simpl in *. inversion Hnd as [|? ? Hk Hnd']; subst.
    destruct Hin as [E|Hin].
    - inversion E; subst. now rewrite String.eqb_refl.
    - destruct (String.eqb_spec k key) as [->|Hne]; [|now apply IH].
      exfalso. apply Hk. apply in_map_iff. now exists (key, v). }
  rewrite Hget in Hv. destruct (group key seen); [discriminate|].
  split; [discriminate|]. now inversion Hv.
Qed.

End ChildrenLoop.

(** ** Shape of a translation *)

Lemma recurse_unfold (t : string) (items : list (string * string))
  (x : option string) (cs : list Element) (ign : list string) (depth : nat) :
  recurse_element_descending (Elem t items x cs) ign depth
  = add_text x
      (add_attributes items
         (fold_left
            (child_step ign depth
               (fun c => recurse_element_descending c ign (S depth)))
            cs [])).
Proof. reflexivity. Qed.

Lemma add_attributes_shape (items : list (string * string)) :
  forall d, exists extra,
    add_attributes items d = d ++ extra
    /\ (forall k v, In (k, v) extra -> exists s, v = VStr s).
Proof.
  unfold add_attributes.
  induction items as [|[name val] items IH]; intros d; simpl.
  - exists []. split; [now rewrite app_nil_r | intros k v []].
  - destruct (set_unique_key_val_shape d name val) as (e1 & -> & H1).
    destruct (IH (d ++ e1)) as (e2 & -> & H2).
    exists (e1 ++ e2). split; [now rewrite app_assoc|].
    intros k v Hin. apply in_app_or in Hin. destruct Hin; eauto.
Qed.

Lemma add_text_cases (x : option string) (d : dict) :
  (exists extra,
      add_text x d = VDict (d ++ extra)
      /\ (forall k v, In (k, v) extra -> exists s, v = VStr s))
  \/ (d = [] /\ exists s, x = Some s /\ has_text x = true
                          /\ add_text x d = VStr s).
Proof.
  unfold add_text. destruct x as [s|].
  - destruct (has_text (Some s)) eqn:Ht.
    + destruct d as [|kv d].
      * right. split; [reflexivity|]. now exists s.
      * left. cbn [truthy].
        destruct (set_unique_key_val_shape (kv :: d) VALUE_FIELD_PREFIX s)
          as (e & -> & He).
        now exists e.
    + left. exists []. split; [now rewrite app_nil_r | intros k v []].
  - left. exists []. split; [now rewrite app_nil_r | intros k v []].
Qed.



(** ** Translation: ignore scope, arrays, key collisions *)



Lemma child_entry_is_list (elem : Element) (ign : list string) (depth : nat)
  (key : string) :
  kept_children ign depth key elem <> [] ->
  exists d,
    recurse_element_descending elem ign depth = VDict d
    /\ dict_get key d
       = Some (VList (map (fun c => recurse_element_descending c ign (S depth))
                          (kept_children ign depth key elem))).
Proof.
  set (translate := fun c => recurse_element_descending c ign (S depth)).
  destruct elem as [t items x cs].
  rewrite recurse_unfold. fold translate.
  unfold kept_children. cbn [children]. fold translate.
  pose proof (groups_children ign depth translate cs) as Hg.
  set (r := fold_left (child_step ign depth translate) cs []) in *.
  destruct (add_attributes_shape items r) as (e1 & -> & He1).
  intros Hkept. destruct Hg as [_ Hget].
  assert (Hr : dict_get key r
               = Some (VList (map translate (group ign depth translate key cs)))).
  { rewrite Hget. now destruct (group ign depth translate key cs). }
  assert (Hin : key_in key r = true).
  { destruct (key_in key r) eqn:E; [reflexivity|].
    apply key_in_false_get in E. congruence. }
  destruct (add_text_cases x (r ++ e1)) as [(e2 & -> & _)|(Hnil & _)].
  - eexists. split; [reflexivity|].
    rewrite <- app_assoc. now rewrite dict_get_app_present.
  - apply app_eq_nil in Hnil. destruct Hnil as [Hnil _].
    rewrite Hnil in Hin. discriminate.
Qed.

Lemma translation_shape (elem : Element) (ign : list string) (depth : nat)
  (d : dict) :
  recurse_element_descending elem ign depth = VDict d ->
  exists from_children others,
    d = from_children ++ others
    /\ (forall key v,
           In (key, v) from_children ->
           kept_children ign depth key elem <> []
           /\ v = VList (map (fun c => recurse_element_descending c ign (S depth))
                             (kept_children ign depth key elem)))
    /\ (forall key v, In (key, v) others -> exists s, v = VStr s).
Proof.
  set (translate := fun c => recurse_element_descending c ign (S depth)).
  destruct elem as [t items x cs].
  rewrite recurse_unfold. fold translate.
  unfold kept_children. cbn [children]. fold translate.
  pose proof (groups_children ign depth translate cs) as Hg.
  set (r := fold_left (child_step ign depth translate) cs []) in *.
  destruct (add_attributes_shape items r) as (e1 & -> & He1).
  intros Hd.
  destruct (add_text_cases x (r ++ e1))
    as [(e2 & E & He2)|(_ & s & _ & _ & E)]; rewrite E in Hd;
    [|discriminate].
  inversion Hd; subst d. exists r, (e1 ++ e2). split; [|split].
  - now rewrite app_assoc.
  - intros key v Hin. eapply groups_entry; eassumption.
  - intros key v Hin. apply in_app_or in Hin. destruct Hin; eauto.
Qed.

(** C6.  At every depth, each entry of a translation that comes from
    child elements is the list of the translations of the kept children
    with that tag, in document order, also when there is exactly one;
    the entries that follow them hold attribute or text strings. *)
Theorem C6_child_entries_are_lists
  (elem : Element) (ign : list string) (depth : nat) :
  let translate := fun c => recurse_element_descending c ign (S depth) in
  (forall key,
      kept_children ign depth key elem <> [] ->
      exists d,
        recurse_element_descending elem ign depth = VDict d
        /\ dict_get key d
           = Some (VList (map translate (kept_children ign depth key elem))))
  /\ (forall d,
         recurse_element_descending elem ign depth = VDict d ->
         exists from_children others,
           d = from_children ++ others
           /\ (forall key v,
                  In (key, v) from_children ->
                  kept_children ign depth key elem <> []
                  /\ v = VList (map translate
                                  (kept_children ign depth key elem)))
           /\ (forall key v, In (key, v) others -> exists s, v = VStr s)).
Proof.
  intros translate. split.
  - intros key. apply child_entry_is_list.
  - intros d. apply translation_shape.
Qed.

Lemma C6_witness :
  kept_children [] 1 "name" (branch "ITEM" [leaf "name" "Bob"]) <> []
  /\ exists d,
       recurse_element_descending (branch "ITEM" [leaf "name" "Bob"]) [] 1
       = VDict d
       /\ dict_get "name" d = Some (VList [VStr "Bob"]).
Proof.
  assert (H : kept_children [] 1 "name" (branch "ITEM" [leaf "name" "Bob"])
              <> []) by discriminate.
  split; [exact H|].
  destruct (@C6_child_entries_are_lists
              (branch "ITEM" [leaf "name" "Bob"]) [] 1) as [Hentry _].
  destruct (Hentry "name" H) as (d & Hd & Hget).
  exists d. split; [exact Hd | exact Hget].
Defined.

(** ** The parsed tree: handles, clearing, end events *)

Lemma nth_error_update_nth {A : Type} (f : A -> A) (l : list A) :
  forall i j,
    nth_error (update_nth i f l) j
    = if (i =? j)%nat then option_map f (nth_error l j) else nth_error l j.
Proof.
  induction l as [|x l IH]; intros i j; simpl.
  - destruct i, j; simpl; try reflexivity. now destruct (i =? j)%nat.
  - destruct i as [|i], j as [|j]; simpl; try reflexivity. apply IH.
Qed.

Lemma tag_update_at (f : Element -> Element) (p : list nat) (e : Element) :
  (forall x, tag (f x) = tag x) -> tag (update_at f p e) = tag e.
Proof. intros Hf. destruct p, e; simpl; [apply Hf | reflexivity]. Qed.

(** Updating at [p] leaves the tags at paths no longer than [p] alone. *)
Lemma subtree_update_tag (f : Element -> Element) :
  (forall x, tag (f x) = tag x) ->
  forall q p e,
    List.length q <= List.length p ->
    option_map tag (subtree q (update_at f p e)) = option_map tag (subtree q e).
Proof.
  intros Hf. induction q as [|j q IH]; intros p e Hlen.
  - simpl. now rewrite tag_update_at.
  - destruct p as [|i p]; [simpl in Hlen; lia|].
    destruct e as [t a x cs]. simpl. rewrite nth_error_update_nth.
    destruct (Nat.eqb_spec i j) as [->|Hne]; [|reflexivity].
    destruct (nth_error cs j) as [c|]; simpl; [|reflexivity].
    apply IH. simpl in Hlen. lia.
Qed.

(** Updating at [p] leaves the subtree at another path of the same
    length alone. *)
Lemma subtree_update_other (f : Element -> Element) :
  forall q p e,
    List.length q = List.length p -> q <> p ->
    subtree q (update_at f p e) = subtree q e.
Proof.
  induction q as [|j q IH]; intros p e Hlen Hne.
  - destruct p; [congruence | discriminate].
  - destruct p as [|i p]; [discriminate|].
    destruct e as [t a x cs]. simpl. rewrite nth_error_update_nth.
    destruct (Nat.eqb_spec i j) as [->|Hij]; [|reflexivity].
    destruct (nth_error cs j) as [c|]; simpl; [|reflexivity].
    apply IH; [simpl in Hlen; lia | congruence].
Qed.

Lemma subtree_update_same (f : Element -> Element) :
  forall p e, subtree p (update_at f p e) = option_map f (subtree p e).
Proof.
  induction p as [|i p IH]; intros e; [reflexivity|].
  destruct e as [t a x cs]. simpl. rewrite nth_error_update_nth.
  rewrite Nat.eqb_refl. destruct (nth_error cs i) as [c|]; simpl; [|reflexivity].
  apply IH.
Qed.

Lemma rev_injective_nat (a b : list nat) : rev a = rev b -> a = b.
Proof. intros H. rewrite <- (rev_involutive a), H. apply rev_involutive. Qed.

Lemma tag_at_clear (doc : Element) (m n : Node) :
  List.length n <= List.length m -> tag_at (clear doc m) n = tag_at doc n.
Proof.
  intros H. unfold tag_at, elem_at, clear.
  apply subtree_update_tag; [reflexivity | now rewrite !length_rev].
Qed.

Lemma elem_at_clear_other (doc : Element) (m n : Node) :
  List.length n = List.length m -> n <> m ->
  elem_at (clear doc m) n = elem_at doc n.
Proof.
  intros Hlen Hne. unfold elem_at, clear.
  apply subtree_update_other; [now rewrite !length_rev|].
  intros H. now apply rev_injective_nat in H.
Qed.

Lemma elem_at_clear_same (doc : Element) (n : Node) :
  elem_at (clear doc n) n = option_map cleared (elem_at doc n).
Proof. apply subtree_update_same. Qed.

Lemma lineage_clear (doc : Element) (m : Node) :
  forall n, List.length n <= List.length m ->
            lineage (clear doc m) n = lineage doc n.
Proof.
  induction n as [|i n IH]; intros H.
  - simpl. now rewrite tag_at_clear.
  - cbn [lineage]. rewrite tag_at_clear by exact H.
    f_equal. apply IH. simpl in H. lia.
Qed.

Lemma length_lineage (doc : Element) (n : Node) :
  List.length (lineage doc n) = S (List.length n).
Proof. induction n as [|i n IH]; simpl; [reflexivity | now rewrite IH]. Qed.

(** ** Path matching *)

Lemma match_upwards_lineage (doc : Element) (sections : list string) :
  forall n,
    match_upwards doc sections (Some n) = true
    <-> lineage doc n = map Some sections.
Proof.
  induction sections as [|section rest IH]; intros n.
  - simpl. split; [discriminate|]. destruct n; discriminate.
  - cbn [match_upwards map]. destruct n as [|i up]; cbn [lineage getparent].
    + destruct (tag_at doc []) as [t|]; [|split; discriminate].
      destruct (String.eqb_spec section t) as [->|Hne]; simpl.
      * destruct rest; simpl; split; try discriminate; reflexivity.
      * split; [discriminate|]. intros H. inversion H. congruence.
    + destruct (tag_at doc (i :: up)) as [t|]; [|split; discriminate].
      destruct (String.eqb_spec section t) as [->|Hne]; simpl.
      * rewrite IH. split; [now intros -> | intros H; now inversion H].
      * split; [discriminate|]. intros H. inversion H. congruence.
Qed.

Lemma is_matching_lineage (doc : Element) (axis_path : list string) (n : Node) :
  is_matching_repeating_element doc axis_path n = true
  <-> lineage doc n = map Some (rev axis_path).
Proof. apply match_upwards_lineage. Qed.

Lemma is_matching_depth (doc : Element) (axis_path : list string) (n : Node) :
  is_matching_repeating_element doc axis_path n = true ->
  S (List.length n) = List.length axis_path.
Proof.
  intros H. apply is_matching_lineage in H.
  rewrite <- length_lineage with (doc := doc), H.
  now rewrite length_map, length_rev.
Qed.

Lemma is_matching_same_lineage (doc doc' : Element) (axis_path : list string)
  (n : Node) :
  lineage doc' n = lineage doc n ->
  is_matching_repeating_element doc' axis_path n
  = is_matching_repeating_element doc axis_path n.
Proof.
  intros H.
  destruct (is_matching_repeating_element doc axis_path n) eqn:E.
  - apply is_matching_lineage. rewrite H. now apply is_matching_lineage.
  - destruct (is_matching_repeating_element doc' axis_path n) eqn:E';
      [|reflexivity].
    apply is_matching_lineage in E'. rewrite H in E'.
    apply is_matching_lineage in E'. congruence.
Qed.

(** ** End events are distinct handles *)

Lemma in_flat_mapi {A B : Type} (f : nat -> A -> list B) (b : B) (l : list A) :
  forall start,
    In b (flat_mapi f start l)
    <-> exists j x, nth_error l j = Some x /\ In b (f (start + j) x).
Proof.
  induction l as [|x l IH]; intros start; simpl.
  - split; [intros [] | intros (j & y & H & _); now destruct j].
  - rewrite in_app_iff, IH. split.
    + intros [H|(j & y & Hj & Hin)].
      * exists 0, x. now rewrite Nat.add_0_r.
      * exists (S j), y. now rewrite Nat.add_succ_r.
    + intros ([|j] & y & Hj & Hin); simpl in Hj.
      * left. inversion Hj; subst. now rewrite Nat.add_0_r in Hin.
      * right. exists j, y. now rewrite Nat.add_succ_r in Hin.
Qed.

Lemma NoDup_flat_mapi {A B : Type} (f : nat -> A -> list B) (l : list A) :
  forall start,
    (forall j x, nth_error l j = Some x -> NoDup (f (start + j) x)) ->
    (forall j k x y b,
        nth_error l j = Some x -> nth_error l k = Some y ->
        In b (f (start + j) x) -> In b (f (start + k) y) -> j = k) ->
    NoDup (flat_mapi f start l).
Proof.
  induction l as [|x l IH]; intros start Hnd Hdisj; simpl; [constructor|].
  apply NoDup_app.
  - specialize (Hnd 0 x eq_refl). now rewrite Nat.add_0_r in Hnd.
  - apply IH.
    + intros j y Hj. specialize (Hnd (S j) y Hj).
      now rewrite Nat.add_succ_r in Hnd.
    + intros j k y z b Hj Hk Hb1 Hb2.
      assert (S j = S k) as E; [|now inversion E].
      apply (Hdisj (S j) (S k) y z b Hj Hk);
        now rewrite Nat.add_succ_r.
  - intros b Hb1 Hb2. apply in_flat_mapi in Hb2.
    destruct Hb2 as (j & y & Hj & Hb2).
    assert (0 = S j) as E; [|discriminate].
    apply (Hdisj 0 (S j) x y b eq_refl Hj).
    + now rewrite Nat.add_0_r.
    + rewrite Nat.add_succ_r. exact Hb2.
Qed.

Lemma end_events_below (e : Element) :
  forall here n, In n (end_events here e) -> exists p, n = p ++ here.
Proof.
  induction e as [t a x cs IH] using Element_ind_nested.
  intros here n Hin. cbn [end_events] in Hin.
  apply in_app_or in Hin. destruct Hin as [Hin|[<-|[]]]; [|now exists []].
  apply in_flat_mapi in Hin. destruct Hin as (j & c & Hj & Hin).
  rewrite Forall_forall in IH.
  destruct (IH c (nth_error_In _ _ Hj) _ _ Hin) as (p & ->).
  exists (p ++ [0 + j]). now rewrite <- app_assoc.
Qed.

Lemma NoDup_end_events (e : Element) :
  forall here, NoDup (end_events here e).
Proof.
  induction e as [t a x cs IH] using Element_ind_nested.
  intros here. cbn [end_events]. rewrite Forall_forall in IH.
  apply NoDup_app.
  - apply NoDup_flat_mapi.
    + intros j c Hj. apply IH. exact (nth_error_In _ _ Hj).
    + intros j k c c' n Hj Hk Hn Hn'.
      apply end_events_below in Hn, Hn'.
      destruct Hn as (p & ->), Hn' as (p' & E).
      change (p ++ (0 + j) :: here) with (p ++ [0 + j] ++ here) in E.
      change (p' ++ (0 + k) :: here) with (p' ++ [0 + k] ++ here) in E.
      rewrite !app_assoc in E. apply app_inv_tail in E.
      apply app_inj_tail in E. simpl in E. lia.
  - repeat constructor. intros [].
  - intros n Hn [<-|[]]. apply in_flat_mapi in Hn.
    destruct Hn as (j & c & _ & Hn). apply end_events_below in Hn.
    destruct Hn as (p & E). apply (f_equal (@List.length nat)) in E.
    rewrite length_app in E. simpl in E. lia.
Qed.

Lemma NoDup_iterparse (doc : Element) (name : string) :
  NoDup (iterparse doc name).
Proof. apply NoDup_filter, NoDup_end_events. Qed.

(** ** One round of the ingest loop *)

Lemma inserted_batches_app (tr1 tr2 : list Event) :
  inserted_batches (tr1 ++ tr2) = inserted_batches tr1 ++ inserted_batches tr2.
Proof. apply flat_map_app. Qed.

Lemma cleared_nodes_app (tr1 tr2 : list Event) :
  cleared_nodes (tr1 ++ tr2) = cleared_nodes tr1 ++ cleared_nodes tr2.
Proof. apply flat_map_app. Qed.

Section IngestLoop.

Variables batch_size status_threshold : nat.
Variable coll : Collection.
Variable axis_path ignore_list : list string.

Local Abbreviation body :=
  (loop_body batch_size status_threshold coll axis_path ignore_list).
Local Abbreviation accepts := (fun doc => accepted doc axis_path ignore_list).

Lemma loop_body_skip (st : LoopState) (n : Node) :
  accepts (tree st) n = None -> body st n = st.
Proof.
  unfold loop_body, accepted.
  destruct (is_matching_repeating_element (tree st) axis_path n);
    [|reflexivity].
  destruct (elem_at (tree st) n) as [e|]; [|reflexivity].
  now destruct (truthy (recurse_element_descending e ignore_list 1)).
Qed.

(** What an accepted element changes: the document is appended, the
    batch is inserted and emptied when the count before the increment
    is a multiple of the batch size, the element is cleared and the
    count goes up by one. *)
Lemma loop_body_accept (st : LoopState) (n : Node) (d : Value) :
  accepts (tree st) n = Some d ->
  exists report,
    body st n
    = {| tree := clear (tree st) n;
         count := S (count st);
         records_batch :=
           if (count st mod batch_size =? 0)%nat then []
           else records_batch st ++ [d];
         events :=
           events st
           ++ (if (count st mod batch_size =? 0)%nat
               then [EvInsertMany coll (records_batch st ++ [d])]
               else [])
           ++ map EvPrint report ++ [EvClear n] |}.
Proof.
  unfold loop_body, accepted, as_document.
  destruct (is_matching_repeating_element (tree st) axis_path n);
    [|discriminate].
  destruct (elem_at (tree st) n) as [e|]; [|discriminate].
  destruct (truthy (recurse_element_descending e ignore_list 1));
    [|discriminate].
  intros E. inversion E as [Hd]. clear E.
  destruct ((count st mod status_threshold =? 0)%nat && (0 <? count st)%nat).
  - exists [MsgRecordsInserted (count st)].
    destruct (count st mod batch_size =? 0)%nat; simpl;
      now rewrite <- ?app_assoc.
  - exists [].
    destruct (count st mod batch_size =? 0)%nat; simpl;
      now rewrite <- ?app_assoc, ?app_nil_r.
Qed.

Lemma inserted_batches_prints (report : list Message) :
  inserted_batches (map EvPrint report) = [].
Proof. induction report; simpl; auto. Qed.

Lemma cleared_nodes_prints (report : list Message) :
  cleared_nodes (map EvPrint report) = [].
Proof. induction report; simpl; auto. Qed.

Lemma emitted_accept (st : LoopState) (n : Node) (d : Value) :
  accepts (tree st) n = Some d -> emitted (body st n) = emitted st ++ [d].
Proof.
  intros H. destruct (loop_body_accept st n H) as (report & ->).
  unfold emitted. cbn [events records_batch].
  rewrite !inserted_batches_app, inserted_batches_prints.
  destruct (count st mod batch_size =? 0)%nat; simpl;
    rewrite ?concat_app; simpl; now rewrite ?app_nil_r, <- ?app_assoc.
Qed.

Lemma cleared_accept (st : LoopState) (n : Node) (d : Value) :
  accepts (tree st) n = Some d ->
  cleared_nodes (events (body st n)) = cleared_nodes (events st) ++ [n].
Proof.
  intros H. destruct (loop_body_accept st n H) as (report & ->).
  cbn [events]. rewrite !cleared_nodes_app, cleared_nodes_prints.
  now destruct (count st mod batch_size =? 0)%nat.
Qed.

Lemma tree_accept (st : LoopState) (n : Node) (d : Value) :
  accepts (tree st) n = Some d -> tree (body st n) = clear (tree st) n.
Proof.
  intros H. now destruct (loop_body_accept st n H) as (report & ->).
Qed.

Lemma count_accept (st : LoopState) (n : Node) (d : Value) :
  accepts (tree st) n = Some d -> count (body st n) = S (count st).
Proof.
  intros H. now destruct (loop_body_accept st n H) as (report & ->).
Qed.

(** Clearing an accepted element does not change what any other
    element contributes. *)
Lemma accepted_clear (t : Element) (m n : Node) :
  is_matching_repeating_element t axis_path m = true -> n <> m ->
  accepts (clear t m) n = accepts t n.
Proof.
  intros Hm Hne. apply is_matching_depth in Hm.
  destruct (Nat.eq_dec (List.length n) (List.length m)) as [Hlen|Hlen].
  - unfold accepted.
    rewrite is_matching_same_lineage with (doc := t)
      by (apply lineage_clear; lia).
    now rewrite elem_at_clear_other.
  - unfold accepted.
    destruct (is_matching_repeating_element (clear t m) axis_path n) eqn:E1.
    { apply is_matching_depth in E1. lia. }
    destruct (is_matching_repeating_element t axis_path n) eqn:E2.
    { apply is_matching_depth in E2. lia. }
    reflexivity.
Qed.

Lemma accepted_is_matching (t : Element) (n : Node) (d : Value) :
  accepts t n = Some d -> is_matching_repeating_element t axis_path n = true.
Proof.
  unfold accepted.
  now destruct (is_matching_repeating_element t axis_path n).
Qed.

(** The whole loop, read off the tree as first parsed. *)
Lemma loop_spec (doc : Element) (context : list Node) :
  NoDup context ->
  forall st,
    (forall n, In n context -> accepts (tree st) n = accepts doc n) ->
    let st' := fold_left body context st in
    emitted st'
    = emitted st
        ++ flat_map (fun n => match accepts doc n with
                              | Some d => [d]
                              | None => []
                              end) context
    /\ cleared_nodes (events st')
       = cleared_nodes (events st)
           ++ filter (is_accepted doc axis_path ignore_list) context
    /\ tree st'
       = fold_left clear
           (filter (is_accepted doc axis_path ignore_list) context) (tree st)
    /\ count st'
       = count st
         + List.length
             (filter (is_accepted doc axis_path ignore_list) context).
Proof.
  induction context as [|n context IH]; intros Hnd st Hsame; simpl.
  - now rewrite !app_nil_r, Nat.add_0_r.
  - inversion Hnd as [|? ? Hn Hnd']; subst.
    pose proof (Hsame n (or_introl eq_refl)) as Hn_same.
    destruct (accepts doc n) as [d|] eqn:E.
    + assert (Ha : is_accepted doc axis_path ignore_list n = true)
        by (unfold is_accepted; now rewrite E).
      rewrite Ha.
      assert (Hrest : forall n', In n' context ->
                 accepts (tree (body st n)) n' = accepts doc n').
      { intros n' Hin. rewrite (tree_accept st n Hn_same).
        rewrite accepted_clear.
        - apply Hsame. now right.
        - eapply accepted_is_matching, Hn_same.
        - intros ->. contradiction. }
      destruct (IH Hnd' (body st n) Hrest) as (H1 & H2 & H3 & H4).
      rewrite H1, H2, H3, H4.
      rewrite (emitted_accept st n Hn_same), (cleared_accept st n Hn_same),
        (tree_accept st n Hn_same), (count_accept st n Hn_same).
      simpl. rewrite <- !app_assoc. simpl.
      repeat split; try reflexivity. lia.
    + assert (Ha : is_accepted doc axis_path ignore_list n = false)
        by (unfold is_accepted; now rewrite E).
      rewrite Ha.
      rewrite (loop_body_skip st n Hn_same).
      apply IH; [exact Hnd'|]. intros n' Hin. apply Hsame. now right.
Qed.

End IngestLoop.

(** ** Batch sizes *)

Lemma div_mod_succ (b k : nat) :
  0 < b ->
  if (S k mod b =? 0)%nat
  then k mod b + 1 = b /\ S k / b = k / b + 1
  else S k mod b = k mod b + 1 /\ S k / b = k / b.
Proof.
  intros Hb.
  pose proof (Nat.div_mod_eq k b) as Hk.
  pose proof (Nat.div_mod_eq (S k) b) as HSk.
  pose proof (Nat.mod_upper_bound k b ltac:(lia)) as Hr.
  pose proof (Nat.mod_upper_bound (S k) b ltac:(lia)) as Hr'.
  destruct (Nat.eqb_spec (S k mod b) 0) as [E|E].
  - rewrite E in HSk.
    assert (S k / b = k / b + 1) by nia. split; nia.
  - assert (S k / b = k / b) by nia. split; nia.
Qed.

Lemma loop_batch_sizes_succ (b t : nat) :
  0 < b ->
  loop_batch_sizes b (S t)
  = loop_batch_sizes b t
      ++ (if (t mod b =? 0)%nat then [pending b t + 1] else [])
  /\ pending b (S t) = if (t mod b =? 0)%nat then 0 else pending b t + 1.
Proof.
  intros Hb. destruct t as [|k].
  - cbn [loop_batch_sizes pending].
    rewrite Nat.Div0.mod_0_l, Nat.Div0.div_0_l. now simpl.
  - cbn [loop_batch_sizes pending].
    pose proof (div_mod_succ k Hb) as H.
    destruct (S k mod b =? 0)%nat eqn:E.
    + destruct H as [H1 H2]. rewrite H2, H1, repeat_app.
      apply Nat.eqb_eq in E. now rewrite E.
    + destruct H as [H1 H2]. rewrite H2, H1, app_nil_r.
      now split.
Qed.

Section BatchSizes.

Variables batch_size status_threshold : nat.
Variable coll : Collection.
Variable axis_path ignore_list : list string.
Hypothesis batch_size_pos : 0 < batch_size.

Local Abbreviation body :=
  (loop_body batch_size status_threshold coll axis_path ignore_list).

Local Abbreviation sized := (sized batch_size).

Lemma sized_step (base : list nat) (st : LoopState) (n : Node) :
  sized base st -> sized base (body st n).
Proof.
  intros [Hins Hpend].
  destruct (accepted (tree st) axis_path ignore_list n) as [d|] eqn:E.
  - destruct (@loop_body_accept batch_size status_threshold coll
                axis_path ignore_list st n d E) as (report & ->).
    unfold sized. cbn [events records_batch count].
    rewrite !inserted_batches_app, inserted_batches_prints, !map_app, Hins.
    destruct (loop_batch_sizes_succ (count st) batch_size_pos) as [-> ->].
    destruct (count st mod batch_size =? 0)%nat; simpl.
    + rewrite length_app, Hpend, <- app_assoc. now simpl.
    + rewrite length_app, Hpend, ?app_nil_r. now simpl.
  - now rewrite loop_body_skip.
Qed.

Lemma sized_loop (base : list nat) (context : list Node) :
  forall st, sized base st -> sized base (fold_left body context st).
Proof.
  induction context as [|n context IH]; intros st H; simpl; [exact H|].
  apply IH, sized_step, H.
Qed.

End BatchSizes.

(** ** The trace of [insert_array_elements_into_db] *)

Lemma insert_trace (batch_size status_threshold : nat) (coll : Collection)
  (axis_path ignore_list : list string) (fs : FileSystem)
  (xml_filepath name : string) (doc : Element) (tr : list Event) :
  index_last axis_path = Some name -> fs xml_filepath = Some doc ->
  let st := for_loop batch_size status_threshold coll axis_path ignore_list
              doc (iterparse doc name) (tr ++ [EvIterparse xml_filepath name]) in
  insert_array_elements_into_db_sized batch_size status_threshold coll
    axis_path ignore_list fs xml_filepath tr
  = (Ok tt,
     (events st
        ++ match records_batch st with
           | [] => []
           | _ :: _ => [EvInsertMany coll (records_batch st)]
           end)
       ++ [EvPrint (MsgRecordsInserted (count st))]).
Proof.
  intros Hname Hfile st.
  unfold insert_array_elements_into_db_sized, bind, lift, emit, ret.
  rewrite Hname, Hfile. fold st.
  destruct (records_batch st); simpl; now rewrite ?app_nil_r.
Qed.

Lemma insert_trace_no_axis (batch_size status_threshold : nat)
  (coll : Collection) (ignore_list : list string) (fs : FileSystem)
  (xml_filepath : string) (tr : list Event) :
  insert_array_elements_into_db_sized batch_size status_threshold coll
    [] ignore_list fs xml_filepath tr
  = (Raise IndexError, tr).
Proof. reflexivity. Qed.

Lemma index_last_none {A : Type} (l : list A) :
  index_last l = None -> l = [].
Proof.
  unfold index_last. intros H. destruct (rev l) eqn:E; [|discriminate].
  rewrite <- (rev_involutive l), E. reflexivity.
Qed.

(** The loop started on the freshly parsed tree, in terms of that tree. *)
Lemma for_loop_spec (batch_size status_threshold : nat) (coll : Collection)
  (axis_path ignore_list : list string) (doc : Element) (name : string)
  (tr : list Event) :
  let st := for_loop batch_size status_threshold coll axis_path ignore_list
              doc (iterparse doc name) tr in
  let took := filter (is_accepted doc axis_path ignore_list)
                (iterparse doc name) in
  emitted st
  = List.concat (inserted_batches tr)
      ++ flat_map (fun n => match accepted doc axis_path ignore_list n with
                            | Some d => [d]
                            | None => []
                            end) (iterparse doc name)
  /\ cleared_nodes (events st) = cleared_nodes tr ++ took
  /\ tree st = fold_left clear took doc
  /\ count st = List.length took.
Proof.
  intros st took. unfold st, for_loop.
  destruct (@loop_spec batch_size status_threshold coll
              axis_path ignore_list doc (iterparse doc name)
              (NoDup_iterparse doc name)
              {| tree := doc; count := 0; records_batch := []; events := tr |}
              (fun n _ => eq_refl)) as (H1 & H2 & H3 & H4).
  rewrite H1, H2, H3, H4. unfold emitted. cbn [events records_batch tree count].
  now rewrite app_nil_r.
Qed.

Lemma length_accepted (doc : Element) (axis_path ignore_list : list string)
  (context : list Node) :
  List.length
    (flat_map (fun n => match accepted doc axis_path ignore_list n with
                        | Some d => [d]
                        | None => []
                        end) context)
  = List.length (filter (is_accepted doc axis_path ignore_list) context).
Proof.
  induction context as [|n context IH]; simpl; [reflexivity|].
  unfold is_accepted at 1.
  destruct (accepted doc axis_path ignore_list n); simpl; now rewrite IH.
Qed.

(** ** Path anchoring *)

(** C4.  An element matches exactly when its tags, read from the element
    up to the root, are the axis path read from its last segment to its
    first; a lineage that continues above the configured root is
    rejected.  With axis path ROOT/ITEMS/ITEM, the ITEM under
    ROOT/ITEMS matches, the ITEM under OTHER/ITEMS does not, and neither
    does the ITEM under TOP/ROOT/ITEMS. *)
Theorem C4_exact_path_from_root :
  (forall doc axis_path n,
      is_matching_repeating_element doc axis_path n = true
      <-> lineage doc n = map Some (rev axis_path))
  /\ (forall doc axis_path n above,
         above <> [] ->
         lineage doc n = map Some (rev axis_path) ++ above ->
         is_matching_repeating_element doc axis_path n = false)
  /\ is_matching_repeating_element anchored_doc ["ROOT"; "ITEMS"; "ITEM"] [0; 0]
     = true
  /\ is_matching_repeating_element other_root_doc ["ROOT"; "ITEMS"; "ITEM"] [0; 0]
     = false
  /\ is_matching_repeating_element wrapped_doc ["ROOT"; "ITEMS"; "ITEM"] [0; 0; 0]
     = false.
Proof.
  split; [|split; [|repeat split]].
  - intros doc axis_path n. apply is_matching_lineage.
  - intros doc axis_path n above Habove Hlin.
    destruct (is_matching_repeating_element doc axis_path n) eqn:E;
      [|reflexivity].
    apply is_matching_lineage in E. rewrite E in Hlin.
    rewrite <- (app_nil_r (map Some (rev axis_path))) in Hlin at 1.
    apply app_inv_head in Hlin. congruence.
Qed.

Lemma C4_witness :
  [Some "ITEM"; Some "ITEMS"; Some "ROOT"; Some "TOP"]
  = map Some (rev ["ROOT"; "ITEMS"; "ITEM"]) ++ [Some "TOP"]
  /\ is_matching_repeating_element wrapped_doc ["ROOT"; "ITEMS"; "ITEM"] [0; 0; 0]
     = false.
Proof.
  split; [reflexivity|].
  destruct C4_exact_path_from_root as (_ & H & _).
  apply (H wrapped_doc ["ROOT"; "ITEMS"; "ITEM"] [0; 0; 0] [Some "TOP"]).
  - discriminate.
  - reflexivity.
Defined.

(** ** Degenerate text values *)

Lemma has_text_truthy (s : string) :
  has_text (Some s) = true -> str_truthy s = true.
Proof. unfold has_text. intros H. now apply andb_prop in H. Qed.

Lemma leaf_translation (t s : string) (ign : list string) (depth : nat) :
  has_text (Some s) = true ->
  recurse_element_descending (leaf t s) ign depth = VStr s.
Proof.
  intros H. unfold leaf. rewrite recurse_unfold.
  unfold add_attributes, add_text. cbn [fold_left]. now rewrite H.
Qed.

(** C8.  A leaf with no attributes, no children and non-blank text
    translates to its bare text.  As the whole translation of a matching
    repeating element it is appended as [{'val': text}]; as a child it
    stays bare inside the list kept under its tag in the parent's
    dictionary. *)
Theorem C8_bare_text_promoted_only_at_top :
  (forall t s ign depth,
      has_text (Some s) = true ->
      recurse_element_descending (leaf t s) ign depth = VStr s)
  /\ (forall batch_size status_threshold coll axis_path ign st n t s,
         has_text (Some s) = true ->
         is_matching_repeating_element (tree st) axis_path n = true ->
         elem_at (tree st) n = Some (leaf t s) ->
         emitted (loop_body batch_size status_threshold coll axis_path ign st n)
         = emitted st ++ [VDict [("val", VStr s)]])
  /\ (forall parent ign depth t s,
         has_text (Some s) = true ->
         In (leaf t s) (children parent) ->
         (1 < depth \/ str_in t ign = false) ->
         exists d,
           recurse_element_descending parent ign depth = VDict d
           /\ dict_get t d
              = Some (VList (map (fun c => recurse_element_descending
                                             c ign (S depth))
                                 (kept_children ign depth t parent)))
           /\ In (leaf t s) (kept_children ign depth t parent)
           /\ recurse_element_descending (leaf t s) ign (S depth) = VStr s).
Proof.
  split; [|split].
  - intros. now apply leaf_translation.
  - intros batch_size status_threshold coll axis_path ign st n t s Ht Hm He.
    apply emitted_accept. unfold accepted. rewrite Hm, He.
    rewrite leaf_translation by exact Ht. cbn [truthy].
    now rewrite (has_text_truthy _ Ht).
  - intros parent ign depth t s Ht Hin Hkeep.
    assert (Hk : In (leaf t s) (kept_children ign depth t parent)).
    { unfold kept_children, group. apply filter_In. split; [exact Hin|].
      unfold keeps. change (tag (leaf t s)) with t.
      rewrite String.eqb_refl.
      rewrite leaf_translation by exact Ht. cbn [truthy].
      rewrite (has_text_truthy _ Ht).
      destruct Hkeep as [Hd|Hi].
      - apply Nat.ltb_lt in Hd. now rewrite Hd.
      - rewrite Hi. simpl. apply orb_true_r. }
    destruct (@child_entry_is_list parent ign depth t) as (d & Hd & Hget).
    { intros E. rewrite E in Hk. contradiction. }
    exists d. repeat split; try assumption.
    now apply leaf_translation.
Qed.

Lemma C8_witness :
  has_text (Some "Bob") = true
  /\ recurse_element_descending (leaf "name" "Bob") [] 1 = VStr "Bob".
Proof.
  split; [reflexivity|].
  destruct C8_bare_text_promoted_only_at_top as (H & _).
  apply H. reflexivity.
Defined.

(** ** Batching *)

Lemma concat_inserted_final (coll : Collection) (st : LoopState) :
  List.concat
    (inserted_batches
       ((events st
           ++ match records_batch st with
              | [] => []
              | _ :: _ => [EvInsertMany coll (records_batch st)]
              end)
          ++ [EvPrint (MsgRecordsInserted (count st))]))
  = emitted st.
Proof.
  unfold emitted. rewrite !inserted_batches_app, !concat_app.
  destruct (records_batch st); simpl; now rewrite ?app_nil_r.
Qed.

(** C9.  The batches passed to [insert_many] during a run, the final
    partial batch included, concatenate in call order to the translated
    documents of the accepted elements in stream order: none is lost,
    repeated or moved. *)
Theorem C9_batches_concatenate_to_documents
  (fs : FileSystem) (xml_filepath : string) (axis_path ignore_list : list string)
  (coll : Collection) (doc : Element) (tr : list Event) :
  fs xml_filepath = Some doc ->
  List.concat
    (inserted_batches
       (snd (insert_array_elements_into_db
               fs xml_filepath axis_path ignore_list coll tr)))
  = List.concat (inserted_batches tr)
      ++ accepted_documents doc axis_path ignore_list.
Proof.
  intros Hfile. unfold insert_array_elements_into_db, accepted_documents.
  destruct (index_last axis_path) as [name|] eqn:Hname.
  - pose proof (@insert_trace MDB_BATCH_INSERT_SIZE
                  INSERT_COUNT_STATUS_THRESHOLD coll axis_path ignore_list
                  fs xml_filepath name doc tr Hname Hfile) as Htr.
    cbv zeta in Htr. rewrite Htr. clear Htr. cbn [snd].
    rewrite concat_inserted_final.
    destruct (for_loop_spec MDB_BATCH_INSERT_SIZE INSERT_COUNT_STATUS_THRESHOLD
                coll axis_path ignore_list doc name
                (tr ++ [EvIterparse xml_filepath name])) as (H & _).
    rewrite H, inserted_batches_app. simpl. now rewrite app_nil_r.
  - apply index_last_none in Hname. subst axis_path.
    rewrite insert_trace_no_axis. simpl. now rewrite app_nil_r.
Qed.

Lemma C9_witness :
  on_disk two_items_doc "data.xml" = Some two_items_doc
  /\ List.concat
       (inserted_batches
          (snd (insert_array_elements_into_db
                  (on_disk two_items_doc) "data.xml" ["DATA"; "ITEMS"; "ITEM"]
                  [] example_coll [])))
     = [VDict [("name", VList [VStr "Bob"])];
        VDict [("name", VList [VStr "Alice"])]].
Proof.
  split; [reflexivity|].
  rewrite (@C9_batches_concatenate_to_documents
             (on_disk two_items_doc) "data.xml" ["DATA"; "ITEMS"; "ITEM"] []
             example_coll two_items_doc [] eq_refl).
  reflexivity.
Defined.

(** The sizes of the batches of a run, in call order. *)
Lemma run_batch_sizes
  (batch_size status_threshold : nat) (coll : Collection)
  (axis_path ignore_list : list string) (fs : FileSystem)
  (xml_filepath : string) (doc : Element) (tr : list Event) :
  0 < batch_size ->
  fs xml_filepath = Some doc ->
  1 <= List.length (accepted_documents doc axis_path ignore_list) ->
  let T := List.length (accepted_documents doc axis_path ignore_list) in
  map (@List.length Value)
    (inserted_batches
       (snd (insert_array_elements_into_db_sized batch_size status_threshold
               coll axis_path ignore_list fs xml_filepath tr)))
  = map (@List.length Value) (inserted_batches tr)
      ++ 1 :: repeat batch_size ((T - 1) / batch_size)
      ++ (if ((T - 1) mod batch_size =? 0)%nat then []
          else [(T - 1) mod batch_size]).
Proof.
  intros Hb Hfile HT T. subst T. revert HT. unfold accepted_documents.
  destruct (index_last axis_path) as [name|] eqn:Hname;
    [|simpl; intros; lia].
  rewrite length_accepted. intros HT.
  pose proof (@insert_trace batch_size status_threshold coll axis_path
                ignore_list fs xml_filepath name doc tr Hname Hfile) as Htr.
  cbv zeta in Htr. rewrite Htr. clear Htr. cbn [snd].
  set (tr0 := tr ++ [EvIterparse xml_filepath name]).
  destruct (for_loop_spec batch_size status_threshold coll axis_path
              ignore_list doc name tr0) as (_ & _ & _ & Hcount).
  assert (Hsized : sized batch_size
                     (map (@List.length Value) (inserted_batches tr))
                     (for_loop batch_size status_threshold coll axis_path
                        ignore_list doc (iterparse doc name) tr0)).
  { apply sized_loop; [exact Hb|]. split; cbn [events count records_batch].
    - unfold tr0. rewrite inserted_batches_app. simpl.
      now rewrite !app_nil_r.
    - reflexivity. }
  destruct Hsized as [Hins Hpend].
  set (st := for_loop batch_size status_threshold coll axis_path ignore_list
               doc (iterparse doc name) tr0) in *.
  rewrite <- Hcount in *.
  rewrite !inserted_batches_app, !map_app, Hins.
  destruct (count st) as [|k]; [lia|].
  cbn [loop_batch_sizes pending] in *.
  replace (S k - 1) with k by lia.
  rewrite <- !app_assoc. f_equal. cbn [app]. do 2 f_equal.
  destruct (records_batch st) as [|d b]; simpl in Hpend |- *.
  - rewrite <- Hpend. reflexivity.
  - rewrite <- Hpend. reflexivity.
Qed.

Lemma ceil_div_spec (k b : nat) :
  0 < b ->
  ceil_div k b = k / b + (if (k mod b =? 0)%nat then 0 else 1).
Proof.
  intros Hb. unfold ceil_div.
  pose proof (Nat.div_mod_eq k b) as Hk.
  pose proof (Nat.mod_upper_bound k b ltac:(lia)) as Hr.
  destruct (Nat.eqb_spec (k mod b) 0) as [E|E].
  - rewrite Nat.add_0_r. symmetry.
    apply Nat.div_unique with (r := b - 1); lia.
  - symmetry. apply Nat.div_unique with (r := k mod b - 1); lia.
Qed.

(** The number of [insert_many] calls of a run that accepts [T >= 1]
    documents: one for the first document and [ceil ((T - 1) / B)] for
    the others. *)
Lemma insert_many_call_count
  (batch_size status_threshold : nat) (coll : Collection)
  (axis_path ignore_list : list string) (fs : FileSystem)
  (xml_filepath : string) (doc : Element) :
  0 < batch_size ->
  fs xml_filepath = Some doc ->
  1 <= List.length (accepted_documents doc axis_path ignore_list) ->
  List.length
    (inserted_batches
       (snd (insert_array_elements_into_db_sized batch_size status_threshold
               coll axis_path ignore_list fs xml_filepath [])))
  = 1 + ceil_div
          (List.length (accepted_documents doc axis_path ignore_list) - 1)
          batch_size.
Proof.
  intros Hb Hfile HT.
  pose proof (@run_batch_sizes batch_size status_threshold coll axis_path
                ignore_list fs xml_filepath doc [] Hb Hfile HT) as H.
  cbv zeta in H. apply (f_equal (@List.length nat)) in H.
  rewrite length_map in H. rewrite H. simpl.
  rewrite length_app, repeat_length, ceil_div_spec by exact Hb.
  now destruct (_ =? 0)%nat.
Qed.

(** C10.  In a run that accepts [T >= 1] documents with batch size [B],
    the first [insert_many] call carries one document, each later call
    made inside the loop carries [B], and the call after the loop is made
    only when documents are pending and carries the [(T - 1) mod B]
    that remain. *)
Theorem C10_first_batch_has_one_document
  (batch_size status_threshold : nat) (coll : Collection)
  (axis_path ignore_list : list string) (fs : FileSystem)
  (xml_filepath : string) (doc : Element) (tr : list Event) :
  0 < batch_size ->
  fs xml_filepath = Some doc ->
  1 <= List.length (accepted_documents doc axis_path ignore_list) ->
  let T := List.length (accepted_documents doc axis_path ignore_list) in
  map (@List.length Value)
    (inserted_batches
       (snd (insert_array_elements_into_db_sized batch_size status_threshold
               coll axis_path ignore_list fs xml_filepath tr)))
  = map (@List.length Value) (inserted_batches tr)
      ++ 1 :: repeat batch_size ((T - 1) / batch_size)
      ++ (if ((T - 1) mod batch_size =? 0)%nat then []
          else [(T - 1) mod batch_size]).
Proof.
  intros Hb Hfile HT. now apply run_batch_sizes.
Qed.

Lemma C10_witness :
  0 < 2
  /\ on_disk four_items_doc "data.xml" = Some four_items_doc
  /\ 1 <= List.length
            (accepted_documents four_items_doc ["DATA"; "ITEMS"; "ITEM"] [])
  /\ map (@List.length Value)
       (inserted_batches
          (snd (insert_array_elements_into_db_sized 2 5 example_coll
                  ["DATA"; "ITEMS"; "ITEM"] [] (on_disk four_items_doc)
                  "data.xml" [])))
     = [1; 2; 1].
Proof.
  split; [lia|]. split; [reflexivity|]. split; [vm_compute; lia|].
  rewrite (@C10_first_batch_has_one_document 2 5 example_coll
             ["DATA"; "ITEMS"; "ITEM"] [] (on_disk four_items_doc)
             "data.xml" four_items_doc []);
    [reflexivity | lia | reflexivity | vm_compute; lia].
Defined.

(** C1.  Two accepted documents with the batch size of 1000 lead to two
    [insert_many] calls, the first for the first document alone, where
    [ceil (2 / 1000)] is one. *)
Theorem C1_two_documents_two_inserts :
  List.length
    (accepted_documents two_items_doc ["DATA"; "ITEMS"; "ITEM"] []) = 2
  /\ inserted_batches
       (snd (insert_array_elements_into_db
               (on_disk two_items_doc) "data.xml" ["DATA"; "ITEMS"; "ITEM"]
               [] example_coll []))
     = [[VDict [("name", VList [VStr "Bob"])]];
        [VDict [("name", VList [VStr "Alice"])]]]
  /\ ceil_div 2 MDB_BATCH_INSERT_SIZE = 1.
Proof. vm_compute. repeat split. Qed.

(** ** Clearing *)

Lemma elem_at_fold_clear_other (n : Node) (ms : list Node) :
  (forall m, In m ms -> List.length m = List.length n /\ m <> n) ->
  forall t, elem_at (fold_left clear ms t) n = elem_at t n.
Proof.
  induction ms as [|m ms IH]; intros H t; simpl; [reflexivity|].
  rewrite IH by (intros m' Hm'; apply H; now right).
  destruct (H m (or_introl eq_refl)) as [Hlen Hne].
  apply elem_at_clear_other; [now symmetry | congruence].
Qed.

Lemma elem_at_fold_clear (len : nat) (ms : list Node) :
  NoDup ms -> (forall m, In m ms -> List.length m = len) ->
  forall t n,
    In n ms ->
    elem_at (fold_left clear ms t) n = option_map cleared (elem_at t n).
Proof.
  induction ms as [|m ms IH]; intros Hnd Hlen t n Hin; [contradiction|].
  inversion Hnd as [|? ? Hm Hnd']; subst. simpl.
  destruct Hin as [->|Hin].
  - rewrite elem_at_fold_clear_other.
    + apply elem_at_clear_same.
    + intros m' Hm'. split.
      * rewrite (Hlen m') by now right. symmetry. apply Hlen. now left.
      * intros ->. contradiction.
  - rewrite IH; [|exact Hnd'|intros m' Hm'; apply Hlen; now right|exact Hin].
    f_equal. apply elem_at_clear_other.
    + rewrite (Hlen n) by now right. symmetry. apply Hlen. now left.
    + intros ->. contradiction.
Qed.

Lemma matching_has_element (doc : Element) (axis_path : list string)
  (n : Node) :
  is_matching_repeating_element doc axis_path n = true ->
  exists e, elem_at doc n = Some e.
Proof.
  intros H. apply is_matching_lineage in H.
  pose proof (f_equal (fun l => nth_error l 0) H) as H0. cbv beta in H0.
  unfold tag_at in *. destruct n as [|i up]; cbn [lineage nth_error] in H0;
    unfold tag_at in H0;
    (destruct (elem_at doc _) as [e|] eqn:E; [now exists e|]);
    simpl in H0; destruct (rev axis_path); simpl in H0; discriminate.
Qed.

Lemma is_accepted_matching (doc : Element) (axis_path ignore_list : list string)
  (n : Node) :
  is_accepted doc axis_path ignore_list n = true ->
  is_matching_repeating_element doc axis_path n = true.
Proof.
  unfold is_accepted, accepted.
  now destruct (is_matching_repeating_element doc axis_path n).
Qed.

(** While the loop works through the elements before [n], what the
    remaining elements contribute stays what it was in the tree as
    parsed. *)
Lemma loop_rest_same (batch_size status_threshold : nat) (coll : Collection)
  (axis_path ignore_list : list string) (doc : Element) (before : list Node) :
  forall st rest,
    NoDup (before ++ rest) ->
    (forall n, In n (before ++ rest) ->
               accepted (tree st) axis_path ignore_list n
               = accepted doc axis_path ignore_list n) ->
    forall n,
      In n rest ->
      accepted
        (tree (fold_left
                 (loop_body batch_size status_threshold coll axis_path
                    ignore_list) before st))
        axis_path ignore_list n
      = accepted doc axis_path ignore_list n.
Proof.
  induction before as [|m before IH]; intros st rest Hnd Hsame n Hn.
  - apply Hsame. exact Hn.
  - cbn [fold_left]. cbn [app] in Hnd, Hsame.
    inversion Hnd as [|? ? Hm Hnd']; subst.
    apply IH with (rest := rest); [exact Hnd'| |exact Hn].
    intros n' Hn'.
    destruct (accepted (tree st) axis_path ignore_list m) as [d|] eqn:E.
    + rewrite (@tree_accept batch_size status_threshold coll axis_path
                 ignore_list st m d E).
      rewrite accepted_clear.
      * apply Hsame. now right.
      * eapply accepted_is_matching, E.
      * intros ->. contradiction.
    + rewrite loop_body_skip by exact E. apply Hsame. now right.
Qed.

(** The round of an accepted element: it is still whole when its turn
    comes, its translation is appended, and [clear()] on it is the last
    thing the round does. *)
Lemma accepted_round (batch_size status_threshold : nat) (coll : Collection)
  (axis_path ignore_list : list string) (doc : Element)
  (before after : list Node) (n : Node) (tr : list Event) :
  NoDup (before ++ n :: after) ->
  is_accepted doc axis_path ignore_list n = true ->
  ~ In n (cleared_nodes tr) ->
  let st := for_loop batch_size status_threshold coll axis_path ignore_list
              doc before tr in
  let st' := loop_body batch_size status_threshold coll axis_path ignore_list
               st n in
  exists e,
    elem_at doc n = Some e
    /\ elem_at (tree st) n = Some e
    /\ ~ In n (cleared_nodes (events st))
    /\ emitted st'
       = emitted st
           ++ [as_document (recurse_element_descending e ignore_list 1)]
    /\ (exists evs,
           events st' = events st ++ evs ++ [EvClear n]
           /\ cleared_nodes evs = [])
    /\ tree st' = clear (tree st) n
    /\ for_loop batch_size status_threshold coll axis_path ignore_list
         doc (before ++ n :: after) tr
       = fold_left
           (loop_body batch_size status_threshold coll axis_path ignore_list)
           after st'.
Proof.
  intros Hnd Hacc Htr st st'.
  assert (Hnb : ~ In n before).
  { intros Hin. apply NoDup_remove_2 in Hnd. apply Hnd.
    apply in_or_app. now left. }
  assert (Hndb : NoDup before).
  { apply NoDup_app_remove_r in Hnd. exact Hnd. }
  assert (Hsame : accepted (tree st) axis_path ignore_list n
                  = accepted doc axis_path ignore_list n).
  { unfold st, for_loop.
    apply loop_rest_same with (rest := n :: after);
      [exact Hnd | reflexivity | now left]. }
  destruct (@loop_spec batch_size status_threshold coll axis_path ignore_list
              doc before Hndb
              {| tree := doc; count := 0; records_batch := []; events := tr |}
              (fun m _ => eq_refl)) as (_ & Hcl & Htree & _).
  fold (for_loop batch_size status_threshold coll axis_path ignore_list
          doc before tr) in Hcl, Htree.
  fold st in Hcl, Htree. cbn [events tree] in Hcl, Htree.
  pose proof (is_accepted_matching _ _ _ _ Hacc) as Hmatch.
  destruct (matching_has_element doc axis_path n Hmatch) as (e & He).
  assert (Hd : accepted doc axis_path ignore_list n
               = Some (as_document
                         (recurse_element_descending e ignore_list 1))).
  { unfold is_accepted in Hacc. unfold accepted in *.
    rewrite Hmatch, He in *.
    now destruct (truthy (recurse_element_descending e ignore_list 1)). }
  rewrite Hd in Hsame.
  exists e. split; [exact He|]. split; [|split; [|split; [|split; [|split]]]].
  - rewrite Htree. rewrite elem_at_fold_clear_other; [exact He|].
    intros m Hm. apply filter_In in Hm. destruct Hm as [Hm Hma]. split.
    + apply is_accepted_matching, is_matching_depth in Hma.
      apply is_matching_depth in Hmatch. lia.
    + intros ->. contradiction.
  - rewrite Hcl. intros Hin. apply in_app_or in Hin.
    destruct Hin as [Hin|Hin]; [contradiction|].
    apply filter_In in Hin. now destruct Hin.
  - unfold st'. now apply emitted_accept.
  - destruct (@loop_body_accept batch_size status_threshold coll axis_path
                ignore_list st n _ Hsame) as (report & Hbody).
    unfold st'. rewrite Hbody. cbn [events].
    exists ((if (count st mod batch_size =? 0)%nat
             then [EvInsertMany coll
                     (records_batch st
                        ++ [as_document
                              (recurse_element_descending e ignore_list 1)])]
             else []) ++ map EvPrint report).
    split; [now rewrite <- !app_assoc|].
    rewrite cleared_nodes_app, cleared_nodes_prints.
    now destruct (count st mod batch_size =? 0)%nat.
  - unfold st'. eapply tree_accept, Hsame.
  - unfold st', st, for_loop. now rewrite fold_left_app.
Qed.

(** C2.  A yielded element that matches the axis path and has a
    non-empty translation is cleared after it has been translated: when
    its turn comes it is still whole in the tree, its round appends the
    translation of the whole element, and [clear()] on it is the last
    thing the round does; the tree then holds only its tag there.  A
    yielded element that does not match the axis path is never
    cleared. *)
Theorem C2_accepted_elements_are_cleared
  (batch_size status_threshold : nat) (coll : Collection)
  (axis_path ignore_list : list string) (fs : FileSystem)
  (xml_filepath name : string) (doc : Element) (n : Node) :
  index_last axis_path = Some name ->
  fs xml_filepath = Some doc ->
  In n (iterparse doc name) ->
  let trace :=
    snd (insert_array_elements_into_db_sized batch_size status_threshold
           coll axis_path ignore_list fs xml_filepath []) in
  let loop := for_loop batch_size status_threshold coll axis_path ignore_list
                doc in
  let final := tree (loop (iterparse doc name) [EvIterparse xml_filepath name]) in
  (is_accepted doc axis_path ignore_list n = true ->
   In n (cleared_nodes trace)
   /\ elem_at final n = option_map cleared (elem_at doc n)
   /\ exists before after e,
       iterparse doc name = before ++ n :: after
       /\ elem_at doc n = Some e
       /\ let st := loop before [EvIterparse xml_filepath name] in
          let st' := loop_body batch_size status_threshold coll axis_path
                       ignore_list st n in
          elem_at (tree st) n = Some e
          /\ ~ In n (cleared_nodes (events st))
          /\ emitted st'
             = emitted st
                 ++ [as_document (recurse_element_descending e ignore_list 1)]
          /\ (exists evs,
                 events st' = events st ++ evs ++ [EvClear n]
                 /\ cleared_nodes evs = [])
          /\ tree st' = clear (tree st) n
          /\ loop (iterparse doc name) [EvIterparse xml_filepath name]
             = fold_left
                 (loop_body batch_size status_threshold coll axis_path
                    ignore_list) after st')
  /\ (is_matching_repeating_element doc axis_path n = false ->
      ~ In n (cleared_nodes trace)).
Proof.
  intros Hname Hfile Hin trace loop final.
  pose proof (@insert_trace batch_size status_threshold coll axis_path
                ignore_list fs xml_filepath name doc [] Hname Hfile) as Htr.
  cbv zeta in Htr. cbn [app] in Htr.
  assert (Hcl : cleared_nodes trace
                = filter (is_accepted doc axis_path ignore_list)
                    (iterparse doc name)).
  { unfold trace. rewrite Htr. cbn [snd].
    rewrite !cleared_nodes_app.
    destruct (for_loop_spec batch_size status_threshold coll axis_path
                ignore_list doc name [EvIterparse xml_filepath name])
      as (_ & -> & _).
    simpl. destruct (records_batch _); simpl; now rewrite !app_nil_r. }
  split.
  - intros Hacc. split; [|split].
    + rewrite Hcl. apply filter_In. now split.
    + unfold final, loop.
      destruct (for_loop_spec batch_size status_threshold coll axis_path
                  ignore_list doc name [EvIterparse xml_filepath name])
        as (_ & _ & -> & _).
      apply elem_at_fold_clear with (len := List.length n).
      * apply NoDup_filter, NoDup_iterparse.
      * intros m Hm. apply filter_In in Hm. destruct Hm as [_ Hm].
        apply is_accepted_matching, is_matching_depth in Hm.
        apply is_accepted_matching, is_matching_depth in Hacc. lia.
      * apply filter_In. now split.
    + destruct (in_split _ _ Hin) as (before & after & Hsplit).
      pose proof (NoDup_iterparse doc name) as Hnd. rewrite Hsplit in Hnd.
      destruct (@accepted_round batch_size status_threshold coll axis_path
                  ignore_list doc before after n
                  [EvIterparse xml_filepath name] Hnd Hacc)
        as (e & He & Hwhole & Hnot & Hemit & Hev & Htree & Hrest).
      { simpl. tauto. }
      exists before, after, e. split; [exact Hsplit|]. split; [exact He|].
      cbv zeta. unfold loop. rewrite Hsplit.
      repeat split; assumption.
  - intros Hno Hc. rewrite Hcl in Hc. apply filter_In in Hc.
    destruct Hc as [_ Hc]. apply is_accepted_matching in Hc. congruence.
Qed.

Lemma C2_witness :
  index_last ["ROOT"; "ITEMS"; "ITEM"] = Some "ITEM"
  /\ on_disk stray_doc "data.xml" = Some stray_doc
  /\ In [0; 0] (iterparse stray_doc "ITEM")
  /\ is_accepted stray_doc ["ROOT"; "ITEMS"; "ITEM"] [] [0; 0] = true
  /\ In [0; 0]
       (cleared_nodes
          (snd (insert_array_elements_into_db_sized
                  MDB_BATCH_INSERT_SIZE INSERT_COUNT_STATUS_THRESHOLD
                  example_coll ["ROOT"; "ITEMS"; "ITEM"] []
                  (on_disk stray_doc) "data.xml" []))).
Proof.
  assert (Hin : In [0; 0] (iterparse stray_doc "ITEM")) by (now left).
  split; [reflexivity|]. split; [reflexivity|]. split; [exact Hin|].
  split; [reflexivity|].
  destruct (@C2_accepted_elements_are_cleared
              MDB_BATCH_INSERT_SIZE INSERT_COUNT_STATUS_THRESHOLD example_coll
              ["ROOT"; "ITEMS"; "ITEM"] [] (on_disk stray_doc) "data.xml"
              "ITEM" stray_doc [0; 0] eq_refl eq_refl Hin) as [H _].
  exact (proj1 (H eq_refl)).
Defined.

(** Not every yielded element is cleared: the [ITEM] under [ROOT/OTHER]
    is yielded by the walker, does not match ROOT/ITEMS/ITEM, and is left
    with its text in place. *)
Lemma C2_counterexample :
  In [0; 1] (iterparse stray_doc "ITEM")
  /\ ~ In [0; 1]
         (cleared_nodes
            (snd (insert_array_elements_into_db
                    (on_disk stray_doc) "data.xml" ["ROOT"; "ITEMS"; "ITEM"]
                    [] example_coll [])))
  /\ elem_at
       (tree (for_loop MDB_BATCH_INSERT_SIZE INSERT_COUNT_STATUS_THRESHOLD
                example_coll ["ROOT"; "ITEMS"; "ITEM"] []
                stray_doc (iterparse stray_doc "ITEM")
                [EvIterparse "data.xml" "ITEM"]))
       [0; 1]
     = Some (leaf "ITEM" "y").
Proof.
  split; [right; now left|]. split.
  - vm_compute. intros [H|[]]. discriminate.
  - vm_compute. reflexivity.
Qed.

(** ** The axis path guard in [main] *)

(** C3.  When the repeating path has fewer than two slash-separated
    segments, [main] ends in an uncaught exception before anything else
    happens: the trace is unchanged, so the XML file is not opened and
    the database is not touched. *)
Theorem C3_short_axis_path_aborts
  (fs : FileSystem) (args : Args) (tr : list Event) :
  List.length (split "/" (repeatingpath args)) < 2 ->
  (exists e, fst (main fs args tr) = Raise e)
  /\ snd (main fs args tr) = tr
  /\ filter is_stream_or_db_event (snd (main fs args tr))
     = filter is_stream_or_db_event tr.
Proof.
  intros Hlen. unfold main. rewrite length_map.
  apply Nat.ltb_lt in Hlen. rewrite Hlen. unfold raise. cbn [fst snd].
  split; [now exists (NameError "sys")|]. now split.
Qed.

Lemma C3_witness :
  List.length (split "/" "ITEM") < 2
  /\ snd (main (on_disk anchored_doc)
            {| file := "data.xml"; repeatingpath := "ITEM"; ignore := None;
               database := None; collection := None; url := None |} [])
     = [].
Proof.
  split; [vm_compute; lia|].
  refine (proj1 (proj2 (@C3_short_axis_path_aborts (on_disk anchored_doc)
            {| file := "data.xml"; repeatingpath := "ITEM"; ignore := None;
               database := None; collection := None; url := None |} [] _))).
  vm_compute. lia.
Defined.

(** ** Handles of matching elements dereference *)

Lemma matching_dereferences (doc : Element) (axis_path : list string)
  (n : Node) :
  is_matching_repeating_element doc axis_path n = true ->
  exists e, elem_at doc n = Some e.
Proof.
  unfold is_matching_repeating_element, tag_at.
  destruct (rev axis_path) as [|section rest]; simpl; [discriminate|].
  unfold tag_at. destruct (elem_at doc n) as [e|]; simpl; [|discriminate].
  intros _. now exists e.
Qed.

Lemma iterparse_dereferences (doc : Element) (name : string) (n : Node) :
  In n (iterparse doc name) ->
  exists e, elem_at doc n = Some e /\ tag e = name.
Proof.
  unfold iterparse. intros H. apply filter_In in H. destruct H as [_ H].
  unfold has_tag, tag_at in H.
  destruct (elem_at doc n) as [e|]; simpl in H; [|discriminate].
  exists e. split; [reflexivity|]. now apply String.eqb_eq.
Qed.

(** ** Worked examples *)

Example mixed_siblings :
  recurse_element_descending
    (branch "ITEM" [leaf "name" "Bob"; leaf "type" "Monster";
                    leaf "name" "Alice"]) [] 1
  = VDict [("name", VList [VStr "Bob"; VStr "Alice"]);
           ("type", VList [VStr "Monster"])].
Proof. reflexivity. Qed.

Example attribute_and_child_share_a_name :
  recurse_element_descending
    (Elem "thing" [("name", "attr")] (Some " text ") [leaf "name" "Bob"]) [] 1
  = VDict [("name", VList [VStr "Bob"]); ("_name", VStr "attr");
           ("val", VStr " text ")].
Proof. reflexivity. Qed.

Example blank_text_and_empty_attribute_are_dropped :
  recurse_element_descending
    (Elem "thing" [("name", "")] (Some "  ") [branch "empty" []]) [] 1
  = VDict [].
Proof. reflexivity. Qed.

Example end_to_end :
  main (on_disk (branch "DATA" [branch "ITEMS"
                                  [branch "ITEM" [leaf "name" "Bob"]]]))
    {| file := "data.xml"; repeatingpath := "DATA/ITEMS/ITEM";
       ignore := None; database := None; collection := None; url := None |}
    []
  = (Ok tt,
     [EvPrint (MsgProcessing ["DATA"; "ITEMS"; "ITEM"] "data.xml");
      EvPrint (MsgOpening DEFAULT_MONGODB_URL);
      EvConnect DEFAULT_MONGODB_URL;
      EvDrop example_coll;
      EvIterparse "data.xml" "ITEM";
      EvInsertMany example_coll [VDict [("name", VList [VStr "Bob"])]];
      EvClear [0; 0];
      EvPrint (MsgRecordsInserted 1);
      EvPrint MsgIngestDuration]).
Proof. vm_compute. reflexivity. Qed.

(* ================================================================= *)
(** * Further properties *)

(** ** [set_unique_key_val_if_exists] keeps a dictionary a dictionary *)

Lemma dict_get_In (key : string) (v : Value) (d : dict) :
  dict_get key d = Some v -> In (key, v) d.
Proof.
  induction d as [|[k w] d IH]; simpl; [discriminate|].
  destruct (String.eqb_spec k key) as [->|Hne].
  - intros H. inversion H. now left.
  - intros H. right. now apply IH.
Qed.

Lemma NoDup_keys_snoc (d : dict) (key : string) (v : Value) :
  NoDup (map fst d) -> key_in key d = false ->
  NoDup (map fst (d ++ [(key, v)])).
Proof.
  intros Hnd Hfresh. rewrite map_app. simpl. apply NoDup_app.
  - exact Hnd.
  - repeat constructor. intros [].
  - intros k Hk [<-|[]]. apply key_in_keys in Hk. congruence.
Qed.

(** X1.  Whatever key and value are passed, the keys of the dictionary
    stay distinct and every entry that was there keeps its value.  An
    empty key or an empty value changes nothing, and a non-empty key that
    is not yet present receives the value under its own name. *)
Theorem X1_set_unique_key_preserves_entries (d : dict) (key value : string) :
  NoDup (map fst d) ->
  NoDup (map fst (set_unique_key_val_if_exists d key value))
  /\ (forall k, key_in k d = true ->
                dict_get k (set_unique_key_val_if_exists d key value)
                = dict_get k d)
  /\ (str_truthy key && str_truthy value = false ->
      set_unique_key_val_if_exists d key value = d)
  /\ (str_truthy key && str_truthy value = true ->
      key_in key d = false ->
      set_unique_key_val_if_exists d key value = d ++ [(key, VStr value)]).
Proof.
  intros Hnd. unfold set_unique_key_val_if_exists.
  destruct (str_truthy key && str_truthy value) eqn:E.
  - rewrite dict_set_fresh by apply unique_key_fresh.
    split; [|split; [|split]].
    + apply NoDup_keys_snoc; [exact Hnd | apply unique_key_fresh].
    + intros k Hk. now apply dict_get_app_present.
    + discriminate.
    + intros _ Hfresh. unfold unique_key.
      destruct (List.length d); simpl; [reflexivity|].
      now rewrite Hfresh.
  - split; [exact Hnd|]. split; [reflexivity|]. split; [reflexivity|].
    discriminate.
Qed.

Lemma X1_witness :
  NoDup (map fst [("name", VList [VStr "Bob"])])
  /\ set_unique_key_val_if_exists [("name", VList [VStr "Bob"])] "id" ""
     = [("name", VList [VStr "Bob"])].
Proof.
  assert (H : NoDup (map fst [("name", VList [VStr "Bob"])])).
  { repeat constructor. intros []. }
  split; [exact H|].
  destruct (@X1_set_unique_key_preserves_entries
              [("name", VList [VStr "Bob"])] "id" "" H) as (_ & _ & Hno & _).
  apply Hno. reflexivity.
Defined.

(** ** The exact shape of a translation *)

Lemma add_attributes_exact (items : list (string * string)) :
  forall d,
    NoDup (map fst d) ->
    exists extra,
      add_attributes items d = d ++ extra
      /\ map snd extra
         = map (fun item => VStr (snd item)) (filter kept_attribute items)
      /\ NoDup (map fst (d ++ extra)).
Proof.
  unfold add_attributes.
  induction items as [|[name val] items IH]; intros d Hnd; simpl.
  - exists []. rewrite app_nil_r. now repeat split.
  - unfold kept_attribute at 1. cbn [fst snd].
    unfold set_unique_key_val_if_exists at 2.
    destruct (str_truthy name && str_truthy val) eqn:E.
    + rewrite dict_set_fresh by apply unique_key_fresh.
      destruct (IH (d ++ [(unique_key d name, VStr val)])) as (e & -> & Hv & Hn).
      { apply NoDup_keys_snoc; [exact Hnd | apply unique_key_fresh]. }
      exists ((unique_key d name, VStr val) :: e).
      rewrite <- app_assoc in *. simpl in *. rewrite Hv. now repeat split.
    + destruct (IH d Hnd) as (e & -> & Hv & Hn). now exists e.
Qed.

Lemma has_text_some (x : option string) :
  has_text x = true -> exists s, x = Some s /\ str_truthy s = true.
Proof.
  destruct x as [s|]; [|discriminate]. intros H. exists s.
  split; [reflexivity | now apply has_text_truthy].
Qed.

Lemma add_text_exact (x : option string) (d : dict) :
  NoDup (map fst d) ->
  (has_text x = false /\ add_text x d = VDict d)
  \/ (exists s,
         x = Some s /\ has_text x = true /\ str_truthy s = true
         /\ ((d = [] /\ add_text x d = VStr s)
             \/ (d <> []
                 /\ exists k, add_text x d = VDict (d ++ [(k, VStr s)])
                              /\ NoDup (map fst (d ++ [(k, VStr s)]))))).
Proof.
  intros Hnd. destruct (has_text x) eqn:Ht.
  - right. destruct (has_text_some x Ht) as (s & -> & Hs). exists s.
    split; [reflexivity|]. split; [reflexivity|]. split; [exact Hs|].
    unfold add_text. rewrite Ht. destruct d as [|kv d].
    + left. now split.
    + right. split; [discriminate|]. cbn [truthy].
      exists (unique_key (kv :: d) VALUE_FIELD_PREFIX).
      rewrite set_unique_key_val_appends by (reflexivity || exact Hs).
      split; [reflexivity|].
      apply NoDup_keys_snoc; [exact Hnd | apply unique_key_fresh].
  - left. split; [reflexivity|]. unfold add_text.
    destruct x; [now rewrite Ht | reflexivity].
Qed.

Lemma translation_exact (t : string) (items : list (string * string))
  (x : option string) (cs : list Element) (ign : list string) (depth : nat) :
  let translate := fun c => recurse_element_descending c ign (S depth) in
  let r := fold_left (child_step ign depth translate) cs [] in
  let result := recurse_element_descending (Elem t items x cs) ign depth in
  exists extra,
    map snd extra
    = map (fun item => VStr (snd item)) (filter kept_attribute items)
    /\ NoDup (map fst (r ++ extra))
    /\ ((has_text x = false /\ result = VDict (r ++ extra))
        \/ (exists s,
               x = Some s /\ has_text x = true /\ str_truthy s = true
               /\ ((r ++ extra = [] /\ result = VStr s)
                   \/ (r ++ extra <> []
                       /\ exists k,
                           result = VDict ((r ++ extra) ++ [(k, VStr s)])
                           /\ NoDup (map fst ((r ++ extra) ++ [(k, VStr s)])))))).
Proof.
  intros translate r result. unfold result. rewrite recurse_unfold.
  fold translate. fold r.
  destruct (groups_children ign depth translate cs) as [Hnd _]. fold r in Hnd.
  destruct (add_attributes_exact items r Hnd) as (extra & -> & Hv & Hn).
  exists extra. split; [exact Hv|]. split; [exact Hn|].
  now apply add_text_exact.
Qed.

Lemma children_dict_empty (ign : list string) (depth : nat)
  (translate : Element -> Value) (cs : list Element) :
  fold_left (child_step ign depth translate) cs [] = []
  <-> forall c, In c cs -> keeps ign depth translate c = false.
Proof.
  pose proof (groups_children ign depth translate cs) as Hg.
  set (r := fold_left (child_step ign depth translate) cs []) in *.
  split.
  - intros Hr c Hc. destruct Hg as [_ Hget]. specialize (Hget (tag c)).
    rewrite Hr in Hget. simpl in Hget.
    destruct (keeps ign depth translate c) eqn:Hk; [|reflexivity].
    assert (Hin : In c (group ign depth translate (tag c) cs)).
    { apply filter_In. split; [exact Hc|].
      now rewrite String.eqb_refl, Hk. }
    destruct (group ign depth translate (tag c) cs);
      [contradiction | discriminate].
  - intros Hall. destruct r as [|[k v] r'] eqn:Hr; [reflexivity|].
    destruct (@groups_entry ign depth translate ((k, v) :: r') cs k v Hg)
      as [Hne _]; [now left|].
    destruct (group ign depth translate k cs) as [|c g] eqn:Hgk;
      [congruence|].
    assert (Hin : In c (group ign depth translate k cs))
      by (rewrite Hgk; now left).
    apply filter_In in Hin. destruct Hin as [Hc Hk].
    apply andb_prop in Hk. destruct Hk as [_ Hk].
    rewrite (Hall c Hc) in Hk. discriminate.
Qed.

Lemma truthy_dict_app (d1 d2 : dict) :
  truthy (VDict (d1 ++ d2)) = false <-> d1 = [] /\ d2 = [].
Proof.
  destruct d1 as [|kv d1]; simpl.
  - destruct d2; simpl; split; try tauto; try discriminate.
    intros [_ H]. discriminate.
  - split; [discriminate | intros [H _]; discriminate].
Qed.

(** A translation is falsy only as the empty dictionary, and exactly
    when the element has nothing to contribute. *)
Lemma translation_falsy (e : Element) (ign : list string) (depth : nat) :
  let translate := fun c => recurse_element_descending c ign (S depth) in
  (truthy (recurse_element_descending e ign depth) = false
   <-> has_text (text e) = false
       /\ filter kept_attribute (attrib e) = []
       /\ (forall c, In c (children e) ->
                     keeps ign depth translate c = false))
  /\ (truthy (recurse_element_descending e ign depth) = false ->
      recurse_element_descending e ign depth = VDict []).
Proof.
  intros translate. destruct e as [t items x cs]. cbn [text attrib children].
  destruct (translation_exact t items x cs ign depth)
    as (extra & Hv & _ & Hcases).
  fold translate in Hcases.
  pose proof (children_dict_empty ign depth translate cs) as Hr.
  set (r := fold_left (child_step ign depth translate) cs []) in *.
  assert (Hextra : extra = [] <-> filter kept_attribute items = []).
  { assert (Hlen : List.length extra
                   = List.length (filter kept_attribute items)).
    { rewrite <- (length_map snd extra), Hv. apply length_map. }
    destruct extra, (filter kept_attribute items); simpl in Hlen;
      split; congruence || discriminate. }
  destruct Hcases as [[Ht ->]|(s & -> & Ht & Hs & [[Hnil ->]|(Hne & k & -> & _)])].
  - split.
    + rewrite truthy_dict_app, Hr, Hextra. tauto.
    + rewrite truthy_dict_app. intros [-> ->]. reflexivity.
  - cbn [truthy]. rewrite Hs, Ht. split; [|discriminate].
    split; [discriminate | intros [H _]; discriminate].
  - rewrite Ht. destruct ((r ++ extra) ++ [(k, VStr s)]) eqn:E.
    + apply app_eq_nil in E. destruct E as [_ E]. discriminate.
    + cbn [truthy]. split; [|discriminate].
      split; [discriminate | intros [H _]; discriminate].
Qed.

(** X2.  An element is dropped by its parent, or skipped by the ingest
    loop, exactly when it has no non-blank text, no attribute with a
    non-empty name and value, and no child that is kept; its translation
    is then the empty dictionary. *)
Theorem X2_empty_translation_characterised
  (e : Element) (ign : list string) (depth : nat) :
  (truthy (recurse_element_descending e ign depth) = false
   <-> has_text (text e) = false
       /\ filter kept_attribute (attrib e) = []
       /\ (forall c, In c (children e) ->
                     keeps ign depth
                       (fun c => recurse_element_descending c ign (S depth)) c
                     = false))
  /\ (truthy (recurse_element_descending e ign depth) = false ->
      recurse_element_descending e ign depth = VDict []).
Proof. exact (translation_falsy e ign depth). Qed.

Lemma X2_witness :
  truthy (recurse_element_descending
            (Elem "item" [("id", "")] (Some "  ") [leaf "note" "A"])
            ["note"] 1) = false
  /\ recurse_element_descending
       (Elem "item" [("id", "")] (Some "  ") [leaf "note" "A"]) ["note"] 1
     = VDict [].
Proof.
  assert (H : truthy (recurse_element_descending
                        (Elem "item" [("id", "")] (Some "  ")
                           [leaf "note" "A"]) ["note"] 1) = false)
    by reflexivity.
  split; [exact H|].
  exact (proj2 (@X2_empty_translation_characterised
                  (Elem "item" [("id", "")] (Some "  ") [leaf "note" "A"])
                  ["note"] 1) H).
Defined.

(** ** Translations are well-formed values *)

Lemma kept_attribute_values (items : list (string * string)) :
  Forall (fun v => well_formed v /\ truthy v = true)
         (map (fun item => VStr (snd item)) (filter kept_attribute items)).
Proof.
  apply Forall_forall. intros v Hv. apply in_map_iff in Hv.
  destruct Hv as ([name val] & <- & Hin). apply filter_In in Hin.
  destruct Hin as [_ Hk]. unfold kept_attribute in Hk.
  apply andb_prop in Hk. destruct Hk as [_ Hk]. cbn [snd] in *.
  split; [now constructor | exact Hk].
Qed.

Lemma Forall_snd (P : Value -> Prop) (d : dict) :
  Forall P (map snd d) -> Forall (fun kv => P (snd kv)) d.
Proof.
  induction d as [|kv d IH]; simpl; intros H; [constructor|].
  inversion H; subst. constructor; [assumption | now apply IH].
Qed.

Lemma translation_well_formed (e : Element) :
  forall ign depth, well_formed (recurse_element_descending e ign depth).
Proof.
  induction e as [t items x cs IH] using Element_ind_nested.
  intros ign depth. rewrite Forall_forall in IH.
  set (translate := fun c => recurse_element_descending c ign (S depth)).
  destruct (translation_exact t items x cs ign depth)
    as (extra & Hv & Hnd & Hcases).
  fold translate in Hnd, Hcases.
  pose proof (groups_children ign depth translate cs) as Hg.
  set (r := fold_left (child_step ign depth translate) cs []) in *.
  assert (Hr : Forall (fun kv => well_formed (snd kv) /\ truthy (snd kv) = true)
                      r).
  { apply Forall_forall. intros [k v] Hin.
    destruct (@groups_entry ign depth translate r cs k v Hg Hin) as [Hne ->].
    cbn [snd].
    assert (Hkept : forall c, In c (group ign depth translate k cs) ->
                              In c cs /\ truthy (translate c) = true).
    { intros c Hc. apply filter_In in Hc. destruct Hc as [Hc Hk].
      apply andb_prop in Hk. destruct Hk as [_ Hk]. unfold keeps in Hk.
      apply andb_prop in Hk. now destruct Hk. }
    split.
    - constructor.
      + destruct (group ign depth translate k cs); [congruence|discriminate].
      + apply Forall_forall. intros w Hw. apply in_map_iff in Hw.
        destruct Hw as (c & <- & Hc). apply IH. now apply Hkept.
      + apply Forall_forall. intros w Hw. apply in_map_iff in Hw.
        destruct Hw as (c & <- & Hc). now apply Hkept.
    - destruct (group ign depth translate k cs); [congruence|reflexivity]. }
  assert (He : Forall (fun kv => well_formed (snd kv) /\ truthy (snd kv) = true)
                      extra).
  { apply Forall_snd with (P := fun v => well_formed v /\ truthy v = true).
    rewrite Hv. apply kept_attribute_values. }
  assert (Hboth : Forall (fun kv => well_formed (snd kv)
                                    /\ truthy (snd kv) = true) (r ++ extra))
    by (apply Forall_app; now split).
  destruct Hcases as [[_ ->]|(s & _ & _ & Hs & [[_ ->]|(_ & k & -> & Hnd')])].
  - constructor; [exact Hnd | |];
      eapply Forall_impl; [|exact Hboth| |exact Hboth]; now intros kv [].
  - now constructor.
  - assert (Hall : Forall (fun kv => well_formed (snd kv)
                                     /\ truthy (snd kv) = true)
                          ((r ++ extra) ++ [(k, VStr s)])).
    { apply Forall_app. split; [exact Hboth|].
      repeat constructor; exact Hs. }
    constructor; [exact Hnd' | |];
      eapply Forall_impl; [|exact Hall| |exact Hall]; now intros kv [].
Qed.

Lemma as_document_well_formed (v : Value) :
  well_formed v -> truthy v = true ->
  exists d, as_document v = VDict d /\ d <> [] /\ well_formed (VDict d).
Proof.
  intros Hwf Ht. unfold as_document. destruct v as [s|l|d]; cbn [is_dict negb].
  - exists [(VALUE_FIELD_PREFIX, VStr s)]. split; [reflexivity|].
    split; [discriminate|]. constructor.
    + repeat constructor. intros [].
    + constructor; [now constructor | constructor].
    + constructor; [exact Ht | constructor].
  - exists [(VALUE_FIELD_PREFIX, VList l)]. split; [reflexivity|].
    split; [discriminate|]. constructor.
    + repeat constructor. intros [].
    + constructor; [exact Hwf | constructor].
    + constructor; [exact Ht | constructor].
  - exists d. split; [reflexivity|]. split; [|exact Hwf].
    intros ->. discriminate.
Qed.

(** X3.  Every translation is a well-formed value, at every level: the
    keys of each dictionary are distinct, each list is non-empty, and no
    stored string, list item or dictionary entry is empty.  The document
    the loop makes of a non-empty translation is a non-empty well-formed
    dictionary. *)
Theorem X3_translation_is_well_formed
  (e : Element) (ign : list string) (depth : nat) :
  well_formed (recurse_element_descending e ign depth)
  /\ (truthy (recurse_element_descending e ign depth) = true ->
      exists d,
        as_document (recurse_element_descending e ign depth) = VDict d
        /\ d <> [] /\ well_formed (VDict d)).
Proof.
  pose proof (translation_well_formed e ign depth) as Hwf.
  split; [exact Hwf|]. intros Ht. now apply as_document_well_formed.
Qed.

Lemma X3_witness :
  truthy (recurse_element_descending (leaf "ITEM" "x") [] 1) = true
  /\ exists d,
       as_document (recurse_element_descending (leaf "ITEM" "x") [] 1)
       = VDict d
       /\ d <> [] /\ well_formed (VDict d).
Proof.
  split; [reflexivity|].
  exact (proj2 (@X3_translation_is_well_formed (leaf "ITEM" "x") [] 1)
               eq_refl).
Defined.

(** ** The leaves of a translation are the strings that were read *)

Lemma leaves_of_strings (extra : dict) :
  forall vals,
    map snd extra = map VStr vals ->
    flat_map (fun kv => leaves (snd kv)) extra = vals.
Proof.
  induction extra as [|[k v] extra IH]; intros [|s vals] H;
    simpl in *; try discriminate; [reflexivity|].
  inversion H; subst. simpl. f_equal. now apply IH.
Qed.

Lemma filter_all {A : Type} (f : A -> bool) (l : list A) :
  (forall x, In x l -> f x = true) -> filter f l = l.
Proof.
  induction l as [|x l IH]; intros H; simpl; [reflexivity|].
  rewrite (H x (or_introl eq_refl)). f_equal. apply IH.
  intros y Hy. apply H. now right.
Qed.

(** One level of the correspondence, given it for the children. *)
Lemma leaves_one_level (t : string) (items : list (string * string))
  (x : option string) (cs : list Element) (ign : list string) (depth : nat) :
  (forall c, In c cs ->
             forall s, In s (leaves (recurse_element_descending c ign (S depth)))
                       <-> In s (read_strings c)) ->
  forall s,
    In s (leaves (recurse_element_descending (Elem t items x cs) ign depth))
    <-> In s (read_strings
                (Elem t items x
                   (filter (fun c => (1 <? depth)%nat
                                     || negb (str_in (tag c) ign)) cs))).
Proof.
  intros Hchildren s.
  set (translate := fun c => recurse_element_descending c ign (S depth)).
  set (allowed := fun c => (1 <? depth)%nat || negb (str_in (tag c) ign)).
  destruct (translation_exact t items x cs ign depth)
    as (extra & Hv & _ & Hcases).
  fold translate in Hcases.
  pose proof (groups_children ign depth translate cs) as Hg.
  set (r := fold_left (child_step ign depth translate) cs []) in *.
  assert (Hr : In s (flat_map (fun kv => leaves (snd kv)) r)
               <-> In s (flat_map read_strings (filter allowed cs))).
  { rewrite !in_flat_map. split.
    - intros ([k v] & Hin & Hs).
      destruct (@groups_entry ign depth translate r cs k v Hg Hin) as [_ ->].
      cbn [snd leaves] in Hs. apply in_flat_map in Hs.
      destruct Hs as (w & Hw & Hs). apply in_map_iff in Hw.
      destruct Hw as (c & <- & Hc). apply filter_In in Hc.
      destruct Hc as [Hc Hk]. apply andb_prop in Hk. destruct Hk as [_ Hk].
      unfold keeps in Hk. apply andb_prop in Hk. destruct Hk as [_ Hk].
      exists c. split; [apply filter_In; now split|].
      now apply Hchildren.
    - intros (c & Hc & Hs). apply filter_In in Hc. destruct Hc as [Hc Ha].
      apply Hchildren in Hs; [|exact Hc]. fold translate in Hs.
      assert (Ht : truthy (translate c) = true).
      { destruct (truthy (translate c)) eqn:E; [reflexivity|].
        apply (proj2 (translation_falsy c ign (S depth))) in E.
        unfold translate in Hs. rewrite E in Hs. contradiction. }
      assert (Hin : In c (group ign depth translate (tag c) cs)).
      { apply filter_In. split; [exact Hc|].
        rewrite String.eqb_refl. unfold keeps. fold (allowed c).
        now rewrite Ht, Ha. }
      destruct Hg as [_ Hget]. specialize (Hget (tag c)).
      destruct (group ign depth translate (tag c) cs) as [|c0 g] eqn:Eg;
        [contradiction|].
      apply dict_get_In in Hget.
      exists (tag c, VList (map translate (c0 :: g))). split; [exact Hget|].
      cbn [snd leaves]. apply in_flat_map. exists (translate c).
      split; [now apply in_map | exact Hs]. }
  assert (He : flat_map (fun kv => leaves (snd kv)) extra
               = map snd (filter kept_attribute items)).
  { apply leaves_of_strings. now rewrite Hv, map_map. }
  cbn [read_strings]. fold allowed.
  destruct Hcases as [[Ht ->]|(s0 & -> & Ht & _ & [[Hnil ->]|(_ & k & -> & _)])].
  - rewrite Ht, app_nil_r. cbn [leaves].
    rewrite flat_map_app, !in_app_iff, Hr, He. reflexivity.
  - rewrite Ht. apply app_eq_nil in Hnil. destruct Hnil as [Hr0 He0].
    rewrite Hr0 in Hr. rewrite He0 in He. simpl in Hr, He.
    rewrite <- He, !in_app_iff, <- Hr. cbn [leaves]. simpl. tauto.
  - rewrite Ht. cbn [leaves].
    rewrite !flat_map_app, !in_app_iff, Hr, He. simpl. tauto.
Qed.

Lemma leaves_are_read_strings (e : Element) :
  forall ign depth,
    1 < depth ->
    forall s, In s (leaves (recurse_element_descending e ign depth))
              <-> In s (read_strings e).
Proof.
  induction e as [t items x cs IH] using Element_ind_nested.
  intros ign depth Hd s. rewrite Forall_forall in IH.
  rewrite leaves_one_level.
  - rewrite filter_all; [reflexivity|].
    intros c _. apply Nat.ltb_lt in Hd. now rewrite Hd.
  - intros c Hc. apply IH; [exact Hc | lia].
Qed.

(** X4.  For a subtree of elements, the strings at the leaves of a
    translation are exactly the strings the code reads: the values of
    the kept attributes and the non-blank [elem.text] of the elements
    (the text before an element's first child; text after a child is
    never read), taken over the whole subtree below depth 1 and over the
    subtree without the ignored direct children at depth 1. *)
Theorem X4_leaves_are_the_strings_read :
  (forall e ign depth s,
      1 < depth ->
      (In s (leaves (recurse_element_descending e ign depth))
       <-> In s (read_strings e)))
  /\ (forall e ign s,
         In s (leaves (recurse_element_descending e ign 1))
         <-> In s (read_strings (without_ignored ign e))).
Proof.
  split.
  - intros e ign depth s Hd. now apply leaves_are_read_strings.
  - intros [t items x cs] ign s. unfold without_ignored.
    cbn [tag attrib text children].
    apply leaves_one_level with (depth := 1).
    intros c _. apply leaves_are_read_strings. lia.
Qed.

Lemma X4_witness :
  1 < 2
  /\ (In "B" (leaves (recurse_element_descending
                        (branch "sub" [leaf "note" "B"]) ["note"] 2))
      <-> In "B" (read_strings (branch "sub" [leaf "note" "B"]))).
Proof.
  split; [lia|].
  destruct X4_leaves_are_the_strings_read as [H _].
  apply H. lia.
Defined.

(** ** The three outcomes of [insert_array_elements_into_db] *)

Lemma insert_outcomes (batch_size status_threshold : nat) (coll : Collection)
  (axis_path ignore_list : list string) (fs : FileSystem)
  (xml_filepath : string) (tr : list Event) :
  let run_it :=
    insert_array_elements_into_db_sized batch_size status_threshold coll
      axis_path ignore_list fs xml_filepath tr in
  (axis_path = [] /\ run_it = (Raise IndexError, tr))
  \/ (exists name,
         index_last axis_path = Some name /\ fs xml_filepath = None
         /\ run_it = (Raise (OSError xml_filepath),
                      tr ++ [EvIterparse xml_filepath name]))
  \/ (exists name doc,
         index_last axis_path = Some name /\ fs xml_filepath = Some doc
         /\ run_it
            = (Ok tt,
               (events (for_loop batch_size status_threshold coll axis_path
                          ignore_list doc (iterparse doc name)
                          (tr ++ [EvIterparse xml_filepath name]))
                  ++ match records_batch
                             (for_loop batch_size status_threshold coll
                                axis_path ignore_list doc (iterparse doc name)
                                (tr ++ [EvIterparse xml_filepath name])) with
                     | [] => []
                     | _ :: _ =>
                         [EvInsertMany coll
                            (records_batch
                               (for_loop batch_size status_threshold coll
                                  axis_path ignore_list doc
                                  (iterparse doc name)
                                  (tr ++ [EvIterparse xml_filepath name])))]
                     end)
                 ++ [EvPrint
                       (MsgRecordsInserted
                          (count
                             (for_loop batch_size status_threshold coll
                                axis_path ignore_list doc (iterparse doc name)
                                (tr ++ [EvIterparse xml_filepath name]))))])).
Proof.
  intros run_it. destruct (index_last axis_path) as [name|] eqn:Hname.
  - destruct (fs xml_filepath) as [doc|] eqn:Hfile.
    + right. right. exists name, doc. split; [reflexivity|].
      split; [reflexivity|].
      exact (@insert_trace batch_size status_threshold coll axis_path
               ignore_list fs xml_filepath name doc tr Hname Hfile).
    + right. left. exists name. split; [reflexivity|].
      split; [reflexivity|]. unfold run_it,
        insert_array_elements_into_db_sized, bind, lift, emit, raise, ret.
      now rewrite Hname, Hfile.
  - left. apply index_last_none in Hname. subst axis_path.
    split; reflexivity.
Qed.

(** The events of the loop, beyond those it started from. *)
Lemma loop_events (batch_size status_threshold : nat) (coll : Collection)
  (axis_path ignore_list : list string) (context : list Node) :
  forall st,
  exists new,
    events (fold_left
              (loop_body batch_size status_threshold coll axis_path ignore_list)
              context st)
    = events st ++ new
    /\ Forall (ingest_event coll) new
    /\ Forall (fun b => b <> []) (inserted_batches new).
Proof.
  induction context as [|n context IH]; intros st; simpl.
  - exists []. rewrite app_nil_r. now repeat split.
  - destruct (IH (loop_body batch_size status_threshold coll axis_path
                    ignore_list st n)) as (new & -> & Hq & Hne).
    destruct (accepted (tree st) axis_path ignore_list n) as [d|] eqn:E.
    + destruct (@loop_body_accept batch_size status_threshold coll axis_path
                  ignore_list st n d E) as (report & ->).
      cbn [events].
      exists (((if (count st mod batch_size =? 0)%nat
                then [EvInsertMany coll (records_batch st ++ [d])] else [])
                 ++ map EvPrint report ++ [EvClear n]) ++ new).
      split; [now rewrite <- !app_assoc|]. split.
      * apply Forall_app. split; [|exact Hq].
        apply Forall_app. split.
        -- destruct (_ =? 0)%nat; repeat constructor.
        -- apply Forall_app. split; [|repeat constructor].
           apply Forall_forall. intros ev Hev. apply in_map_iff in Hev.
           destruct Hev as (m & <- & _). exact I.
      * rewrite !inserted_batches_app, inserted_batches_prints.
        apply Forall_app. split; [|exact Hne].
        destruct (_ =? 0)%nat; simpl; repeat constructor.
        intros H. apply app_eq_nil in H. destruct H. discriminate.
    + rewrite loop_body_skip by exact E. exists new. now repeat split.
Qed.

(** ** What reaches [insert_many] *)

Lemma loop_batch_sizes_bounds (b t : nat) :
  0 < b ->
  Forall (fun n => 1 <= n <= b) (loop_batch_sizes b t) /\ pending b t < b.
Proof.
  intros Hb. destruct t as [|k]; cbn [loop_batch_sizes pending].
  - split; [constructor | exact Hb].
  - split; [|apply Nat.mod_upper_bound; lia].
    constructor; [lia|]. apply Forall_forall. intros n Hn.
    apply repeat_spec in Hn. lia.
Qed.

Lemma Forall_map_length (P : nat -> Prop) (l : list (list Value)) :
  Forall P (map (@List.length Value) l) ->
  Forall (fun b => P (List.length b)) l.
Proof.
  induction l as [|b l IH]; simpl; intros H; [constructor|].
  inversion H; subst. constructor; [assumption | now apply IH].
Qed.

(** X5.  With a positive batch size [B] (and status threshold), every [insert_many] call of a
    run carries at least one and at most [B] documents, whatever the
    outcome of the run. *)
Theorem X5_batches_hold_between_one_and_B_documents
  (batch_size status_threshold : nat) (coll : Collection)
  (axis_path ignore_list : list string) (fs : FileSystem)
  (xml_filepath : string) :
  0 < batch_size -> 0 < status_threshold ->
  Forall (fun b => 1 <= List.length b <= batch_size)
    (inserted_batches
       (snd (insert_array_elements_into_db_sized batch_size status_threshold
               coll axis_path ignore_list fs xml_filepath []))).
Proof.
  intros Hb _.
  destruct (insert_outcomes batch_size status_threshold coll axis_path
              ignore_list fs xml_filepath [])
    as [[_ ->]|[(name & _ & _ & ->)|(name & doc & _ & _ & ->)]];
    cbn [snd app]; try constructor.
  set (st := for_loop batch_size status_threshold coll axis_path ignore_list
               doc (iterparse doc name) [EvIterparse xml_filepath name]).
  assert (Hsized : sized batch_size [] st).
  { apply sized_loop; [exact Hb|]. now split. }
  destruct Hsized as [Hins Hpend]. cbn [app] in Hins.
  destruct (loop_batch_sizes_bounds (count st) Hb) as [Hsizes Hp].
  rewrite !inserted_batches_app. apply Forall_app. split.
  - apply Forall_app. split.
    + apply Forall_map_length with (P := fun n => 1 <= n <= batch_size).
      now rewrite Hins.
    + destruct (records_batch st) as [|d b]; simpl; constructor;
        [|constructor].
      simpl in Hpend |- *. lia.
  - constructor.
Qed.

Lemma X5_witness :
  0 < 2 /\ 0 < 5
  /\ Forall (fun b => 1 <= List.length b <= 2)
       (inserted_batches
          (snd (insert_array_elements_into_db_sized 2 5 example_coll
                  ["DATA"; "ITEMS"; "ITEM"] [] (on_disk four_items_doc)
                  "data.xml" []))).
Proof.
  assert (H : 0 < 2) by lia. assert (H' : 0 < 5) by lia.
  split; [exact H|]. split; [exact H'|].
  exact (@X5_batches_hold_between_one_and_B_documents 2 5 example_coll
           ["DATA"; "ITEMS"; "ITEM"] [] (on_disk four_items_doc) "data.xml"
           H H').
Defined.

(** The documents inserted by a run that could open its file. *)
Lemma inserted_are_accepted (batch_size status_threshold : nat)
  (coll : Collection) (axis_path ignore_list : list string) (fs : FileSystem)
  (xml_filepath : string) (doc : Element) (tr : list Event) :
  fs xml_filepath = Some doc ->
  List.concat
    (inserted_batches
       (snd (insert_array_elements_into_db_sized batch_size status_threshold
               coll axis_path ignore_list fs xml_filepath tr)))
  = List.concat (inserted_batches tr)
      ++ accepted_documents doc axis_path ignore_list.
Proof.
  intros Hfile. unfold accepted_documents.
  destruct (insert_outcomes batch_size status_threshold coll axis_path
              ignore_list fs xml_filepath tr)
    as [[-> ->]|[(name & _ & Hnone & _)|(name & doc' & Hname & Hfile' & ->)]].
  - cbn [snd index_last rev nth_error]. now rewrite app_nil_r.
  - congruence.
  - assert (doc' = doc) by congruence. subst doc'. rewrite Hname. cbn [snd].
    rewrite concat_inserted_final.
    destruct (for_loop_spec batch_size status_threshold coll axis_path
                ignore_list doc name (tr ++ [EvIterparse xml_filepath name]))
      as (H & _).
    rewrite H, inserted_batches_app. simpl. now rewrite app_nil_r.
Qed.

Lemma accepted_well_formed (doc : Element) (axis_path ignore_list : list string)
  (n : Node) (v : Value) :
  accepted doc axis_path ignore_list n = Some v ->
  exists d, v = VDict d /\ d <> [] /\ well_formed v.
Proof.
  unfold accepted.
  destruct (is_matching_repeating_element doc axis_path n); [|discriminate].
  destruct (elem_at doc n) as [e|]; [|discriminate].
  destruct (truthy (recurse_element_descending e ignore_list 1)) eqn:Ht;
    [|discriminate].
  intros H. inversion H as [Hv]. clear H.
  destruct (as_document_well_formed
              (translation_well_formed e ignore_list 1) Ht)
    as (d & -> & Hne & Hwf).
  now exists d.
Qed.

(** X6.  Every document handed to [insert_many] is a non-empty
    dictionary that is well-formed at every level. *)
Theorem X6_inserted_documents_are_dictionaries
  (fs : FileSystem) (xml_filepath : string) (axis_path ignore_list : list string)
  (coll : Collection) (b : list Value) (v : Value) :
  In b (inserted_batches
          (snd (insert_array_elements_into_db
                  fs xml_filepath axis_path ignore_list coll []))) ->
  In v b ->
  exists d, v = VDict d /\ d <> [] /\ well_formed v.
Proof.
  intros Hb Hv.
  assert (Hin : In v (List.concat
                        (inserted_batches
                           (snd (insert_array_elements_into_db
                                   fs xml_filepath axis_path ignore_list
                                   coll []))))).
  { apply in_concat. now exists b. }
  unfold insert_array_elements_into_db in *.
  destruct (fs xml_filepath) as [doc|] eqn:Hfile.
  - rewrite (@inserted_are_accepted MDB_BATCH_INSERT_SIZE
               INSERT_COUNT_STATUS_THRESHOLD coll axis_path ignore_list fs
               xml_filepath doc [] Hfile) in Hin.
    cbn [inserted_batches flat_map List.concat app] in Hin.
    unfold accepted_documents in Hin.
    destruct (index_last axis_path) as [name|]; [|contradiction].
    apply in_flat_map in Hin. destruct Hin as (n & _ & Hn).
    destruct (accepted doc axis_path ignore_list n) as [w|] eqn:E;
      [|contradiction].
    destruct Hn as [<-|[]]. eapply accepted_well_formed, E.
  - destruct (insert_outcomes MDB_BATCH_INSERT_SIZE
                INSERT_COUNT_STATUS_THRESHOLD coll axis_path ignore_list fs
                xml_filepath [])
      as [[_ H]|[(name & _ & _ & H)|(name & doc & _ & Hsome & _)]];
      [| |congruence]; rewrite H in Hb; contradiction.
Qed.

Lemma X6_witness :
  In [VDict [("val", VStr "x")]]
     (inserted_batches
        (snd (insert_array_elements_into_db (on_disk anchored_doc) "data.xml"
                ["ROOT"; "ITEMS"; "ITEM"] [] example_coll [])))
  /\ In (VDict [("val", VStr "x")]) [VDict [("val", VStr "x")]]
  /\ exists d, VDict [("val", VStr "x")] = VDict d /\ d <> []
               /\ well_formed (VDict [("val", VStr "x")]).
Proof.
  assert (Hb : In [VDict [("val", VStr "x")]]
                 (inserted_batches
                    (snd (insert_array_elements_into_db
                            (on_disk anchored_doc) "data.xml"
                            ["ROOT"; "ITEMS"; "ITEM"] [] example_coll []))))
    by (vm_compute; left; reflexivity).
  assert (Hv : In (VDict [("val", VStr "x")]) [VDict [("val", VStr "x")]])
    by (left; reflexivity).
  split; [exact Hb|]. split; [exact Hv|].
  apply (@X6_inserted_documents_are_dictionaries
           (on_disk anchored_doc) "data.xml" ["ROOT"; "ITEMS"; "ITEM"] []
           example_coll [VDict [("val", VStr "x")]] (VDict [("val", VStr "x")]));
    assumption.
Defined.

(** ** What is printed *)

Lemma printed_app (tr1 tr2 : list Event) :
  printed (tr1 ++ tr2) = printed tr1 ++ printed tr2.
Proof. apply flat_map_app. Qed.

Lemma progress_counts_succ (status_threshold t : nat) :
  progress_counts status_threshold (S t)
  = progress_counts status_threshold t
      ++ (if (t mod status_threshold =? 0)%nat && (0 <? t)%nat
          then [t] else []).
Proof.
  unfold progress_counts. rewrite seq_S, filter_app. simpl.
  now destruct ((t mod status_threshold =? 0)%nat && (0 <? t)%nat).
Qed.

Lemma loop_body_printed (batch_size status_threshold : nat) (coll : Collection)
  (axis_path ignore_list : list string) (st : LoopState) (n : Node) :
  let st' := loop_body batch_size status_threshold coll axis_path ignore_list
               st n in
  printed (events st')
  = printed (events st)
      ++ map MsgRecordsInserted
           (firstn (count st' - count st)
              (if (count st mod status_threshold =? 0)%nat
                  && (0 <? count st)%nat
               then [count st] else [])).
Proof.
  unfold loop_body.
  destruct (is_matching_repeating_element (tree st) axis_path n);
    [|cbn zeta; rewrite Nat.sub_diag; simpl; now rewrite app_nil_r].
  destruct (elem_at (tree st) n) as [e|];
    [|cbn zeta; rewrite Nat.sub_diag; simpl; now rewrite app_nil_r].
  destruct (truthy (recurse_element_descending e ignore_list 1));
    [|cbn zeta; rewrite Nat.sub_diag; simpl; now rewrite app_nil_r].
  cbn zeta. cbn [events count].
  replace (S (count st) - count st) with 1 by lia.
  destruct ((count st mod status_threshold =? 0)%nat && (0 <? count st)%nat);
    destruct (count st mod batch_size =? 0)%nat;
    rewrite ?printed_app; simpl; now rewrite ?app_nil_r.
Qed.

Lemma loop_body_count (batch_size status_threshold : nat) (coll : Collection)
  (axis_path ignore_list : list string) (st : LoopState) (n : Node) :
  let st' := loop_body batch_size status_threshold coll axis_path ignore_list
               st n in
  count st' = count st \/ count st' = S (count st).
Proof.
  cbn zeta.
  destruct (accepted (tree st) axis_path ignore_list n) as [d|] eqn:E.
  - right. eapply count_accept, E.
  - left. now rewrite loop_body_skip.
Qed.

Lemma loop_printed (batch_size status_threshold : nat) (coll : Collection)
  (axis_path ignore_list : list string) (base : list Message)
  (context : list Node) :
  forall st,
    printed (events st)
    = base ++ map MsgRecordsInserted
                (progress_counts status_threshold (count st)) ->
    let st' := fold_left
                 (loop_body batch_size status_threshold coll axis_path
                    ignore_list) context st in
    printed (events st')
    = base ++ map MsgRecordsInserted
                (progress_counts status_threshold (count st')).
Proof.
  induction context as [|n context IH]; intros st H; simpl; [exact H|].
  apply IH.
  pose proof (loop_body_printed batch_size status_threshold coll axis_path
                ignore_list st n) as Hp.
  cbv zeta in Hp. rewrite Hp, H. clear Hp.
  destruct (loop_body_count batch_size status_threshold coll axis_path
              ignore_list st n) as [->| ->].
  - rewrite Nat.sub_diag. simpl. now rewrite app_nil_r.
  - replace (S (count st) - count st) with 1 by lia.
    rewrite progress_counts_succ, map_app, <- app_assoc.
    now destruct ((count st mod status_threshold =? 0)%nat
                  && (0 <? count st)%nat).
Qed.

(** X7.  With positive batch size and status threshold and a non-empty
    repeating tag, a run over a well-formed file that completes has
    printed, for [T] inserted documents, one progress line for every
    positive multiple of the status threshold below [T], in increasing
    order, and then the final line with the count [T]. *)
Theorem X7_progress_and_final_count
  (batch_size status_threshold : nat) (coll : Collection)
  (axis_path ignore_list : list string) (fs : FileSystem)
  (xml_filepath name : string) (doc : Element) :
  0 < batch_size -> 0 < status_threshold ->
  index_last axis_path = Some name ->
  str_truthy name = true ->
  fs xml_filepath = Some doc ->
  let out := insert_array_elements_into_db_sized batch_size status_threshold
               coll axis_path ignore_list fs xml_filepath [] in
  let T := List.length (List.concat (inserted_batches (snd out))) in
  fst out = Ok tt ->
  T = List.length (accepted_documents doc axis_path ignore_list)
  /\ printed (snd out)
     = map MsgRecordsInserted (progress_counts status_threshold T ++ [T]).
Proof.
  intros _ _ Hname _ Hfile out T _.
  assert (HT : T = List.length (accepted_documents doc axis_path ignore_list)).
  { unfold T, out.
    rewrite (@inserted_are_accepted batch_size status_threshold coll axis_path
               ignore_list fs xml_filepath doc [] Hfile).
    reflexivity. }
  pose proof (@insert_trace batch_size status_threshold coll axis_path
                ignore_list fs xml_filepath name doc [] Hname Hfile) as Htr.
  cbv zeta in Htr. cbn [app] in Htr. fold out in Htr.
  split; [exact HT|].
  set (st := for_loop batch_size status_threshold coll axis_path ignore_list
               doc (iterparse doc name) [EvIterparse xml_filepath name]) in *.
  assert (Hcount : count st = T).
  { rewrite HT. unfold accepted_documents. rewrite Hname, length_accepted.
    destruct (for_loop_spec batch_size status_threshold coll axis_path
                ignore_list doc name [EvIterparse xml_filepath name])
      as (_ & _ & _ & H).
    exact H. }
  assert (Hp : printed (events st)
               = [] ++ map MsgRecordsInserted
                         (progress_counts status_threshold (count st))).
  { apply loop_printed. reflexivity. }
  rewrite Htr. cbn [snd]. rewrite !printed_app, Hp, Hcount, map_app.
  destruct (records_batch st); simpl; now rewrite app_nil_r.
Qed.

Lemma X7_witness :
  0 < 2 /\ 0 < 3
  /\ index_last ["DATA"; "ITEMS"; "ITEM"] = Some "ITEM"
  /\ str_truthy "ITEM" = true
  /\ on_disk four_items_doc "data.xml" = Some four_items_doc
  /\ fst (insert_array_elements_into_db_sized 2 3 example_coll
            ["DATA"; "ITEMS"; "ITEM"] [] (on_disk four_items_doc)
            "data.xml" [])
     = Ok tt
  /\ printed
       (snd (insert_array_elements_into_db_sized 2 3 example_coll
               ["DATA"; "ITEMS"; "ITEM"] [] (on_disk four_items_doc)
               "data.xml" []))
     = [MsgRecordsInserted 3; MsgRecordsInserted 4].
Proof.
  assert (H2 : 0 < 2) by lia. assert (H3 : 0 < 3) by lia.
  split; [exact H2|]. split; [exact H3|].
  split; [reflexivity|]. split; [reflexivity|]. split; [reflexivity|].
  split; [reflexivity|].
  destruct (@X7_progress_and_final_count 2 3 example_coll
              ["DATA"; "ITEMS"; "ITEM"] [] (on_disk four_items_doc)
              "data.xml" "ITEM" four_items_doc H2 H3 eq_refl eq_refl eq_refl
              eq_refl)
    as (_ & H).
  rewrite H. reflexivity.
Defined.

(** ** [run]: the collection is dropped first *)

Lemma run_trace (fs : FileSystem) (xml_filepath : string)
  (axis_path ignore_list : list string) (url dbname collname : string)
  (tr : list Event) :
  let coll := {| coll_url := url; coll_db := dbname; coll_name := collname |} in
  exists res rest,
    run fs xml_filepath axis_path ignore_list url dbname collname tr
    = (res,
       tr ++ [EvPrint (MsgProcessing axis_path xml_filepath);
              EvPrint (MsgOpening url); EvConnect url; EvDrop coll] ++ rest)
    /\ Forall (ingest_event coll) rest
    /\ (res = Ok tt \/ res = Raise IndexError
        \/ res = Raise (OSError xml_filepath))
    /\ (forall name,
           index_last axis_path = Some name -> fs xml_filepath = None ->
           res = Raise (OSError xml_filepath)
           /\ rest = [EvIterparse xml_filepath name]).
Proof.
  intros coll. unfold run, bind, emit. fold coll.
  set (tr4 := (((tr ++ [EvPrint (MsgProcessing axis_path xml_filepath)])
                 ++ [EvPrint (MsgOpening url)]) ++ [EvConnect url])
                ++ [EvDrop coll]).
  assert (Htr4 : forall rest,
             tr4 ++ rest
             = tr ++ [EvPrint (MsgProcessing axis_path xml_filepath);
                      EvPrint (MsgOpening url); EvConnect url; EvDrop coll]
                  ++ rest).
  { intros rest. unfold tr4. now rewrite <- !app_assoc. }
  unfold insert_array_elements_into_db.
  destruct (insert_outcomes MDB_BATCH_INSERT_SIZE
              INSERT_COUNT_STATUS_THRESHOLD coll axis_path ignore_list fs
              xml_filepath tr4)
    as [[Hax ->]|[(name & Hname & Hnone & ->)|(name & doc & Hname & Hfile & ->)]].
  - exists (Raise IndexError), []. rewrite <- Htr4, app_nil_r.
    split; [reflexivity|]. split; [constructor|]. split; [tauto|].
    intros name Hname. subst axis_path. discriminate.
  - exists (Raise (OSError xml_filepath)), [EvIterparse xml_filepath name].
    rewrite <- Htr4. split; [reflexivity|].
    split; [repeat constructor|]. split; [tauto|].
    intros name' Hname' _. split; [reflexivity|]. congruence.
  - unfold for_loop.
    destruct (loop_events MDB_BATCH_INSERT_SIZE INSERT_COUNT_STATUS_THRESHOLD
                coll axis_path ignore_list (iterparse doc name)
                {| tree := doc; count := 0; records_batch := [];
                   events := tr4 ++ [EvIterparse xml_filepath name] |})
      as (new & Hev & Hnew & _).
    set (st := fold_left _ _ _) in *. cbn [events] in Hev.
    exists (Ok tt),
      (([EvIterparse xml_filepath name] ++ new)
         ++ match records_batch st with
            | [] => []
            | _ :: _ => [EvInsertMany coll (records_batch st)]
            end
         ++ [EvPrint (MsgRecordsInserted (count st));
             EvPrint MsgIngestDuration]).
    split; [|split; [|split]].
    + rewrite <- Htr4, Hev. now rewrite <- !app_assoc.
    + apply Forall_app. split.
      * apply Forall_app. split; [repeat constructor | exact Hnew].
      * apply Forall_app. split; [|repeat constructor].
        destruct (records_batch st); repeat constructor.
    + tauto.
    + intros name' _ Hnone. congruence.
Qed.

(** X9.  With names the driver accepts, a reachable server and a
    non-empty repeating tag: when the XML file cannot be opened, [run]
    has already connected and dropped the destination collection; it
    ends in OSError with the collection dropped and nothing inserted. *)
Theorem X9_missing_file_leaves_collection_dropped
  (fs : FileSystem) (xml_filepath name : string)
  (axis_path ignore_list : list string) (url dbname collname : string)
  (tr : list Event) :
  database_name_ok dbname = true ->
  collection_name_ok collname = true ->
  index_last axis_path = Some name ->
  str_truthy name = true ->
  fs xml_filepath = None ->
  run fs xml_filepath axis_path ignore_list url dbname collname tr
  = (Raise (OSError xml_filepath),
     tr ++ [EvPrint (MsgProcessing axis_path xml_filepath);
            EvPrint (MsgOpening url);
            EvConnect url;
            EvDrop {| coll_url := url; coll_db := dbname;
                      coll_name := collname |};
            EvIterparse xml_filepath name]).
Proof.
  intros _ _ Hname _ Hnone.
  destruct (run_trace fs xml_filepath axis_path ignore_list url dbname
              collname tr) as (res & rest & -> & _ & _ & H).
  destruct (H name Hname Hnone) as [-> ->]. reflexivity.
Qed.

Lemma X9_witness :
  database_name_ok DEFAULT_DB_NAME = true
  /\ collection_name_ok "ITEMS" = true
  /\ index_last ["ROOT"; "ITEMS"; "ITEM"] = Some "ITEM"
  /\ str_truthy "ITEM" = true
  /\ fst (run (fun _ => None) "missing.xml" ["ROOT"; "ITEMS"; "ITEM"] []
            DEFAULT_MONGODB_URL DEFAULT_DB_NAME "ITEMS" [])
     = Raise (OSError "missing.xml").
Proof.
  split; [reflexivity|]. split; [reflexivity|]. split; [reflexivity|].
  split; [reflexivity|].
  rewrite (@X9_missing_file_leaves_collection_dropped
             (fun _ => None) "missing.xml" "ITEM" ["ROOT"; "ITEMS"; "ITEM"] []
             DEFAULT_MONGODB_URL DEFAULT_DB_NAME "ITEMS" []
             eq_refl eq_refl eq_refl eq_refl eq_refl).
  reflexivity.
Defined.

(** X10.  With names the driver accepts and a reachable server, [run]
    connects once and drops the destination collection once, right
    after its two opening messages and before the XML file is opened;
    everything after that neither connects nor drops, and every
    [insert_many] goes to the collection that was dropped. *)
Theorem X10_run_drops_once_then_only_inserts
  (fs : FileSystem) (xml_filepath : string)
  (axis_path ignore_list : list string) (url dbname collname : string)
  (tr : list Event) :
  database_name_ok dbname = true ->
  collection_name_ok collname = true ->
  let coll := {| coll_url := url; coll_db := dbname; coll_name := collname |} in
  exists rest,
    snd (run fs xml_filepath axis_path ignore_list url dbname collname tr)
    = tr ++ [EvPrint (MsgProcessing axis_path xml_filepath);
             EvPrint (MsgOpening url); EvConnect url; EvDrop coll] ++ rest
    /\ Forall (ingest_event coll) rest.
Proof.
  intros _ _ coll.
  destruct (run_trace fs xml_filepath axis_path ignore_list url dbname
              collname tr) as (res & rest & Hrun & Hrest & _).
  exists rest. fold coll in Hrun. rewrite Hrun. now split.
Qed.

Lemma X10_witness :
  database_name_ok DEFAULT_DB_NAME = true
  /\ collection_name_ok "ITEMS" = true
  /\ exists rest,
       snd (run (on_disk anchored_doc) "data.xml" ["ROOT"; "ITEMS"; "ITEM"] []
              DEFAULT_MONGODB_URL DEFAULT_DB_NAME "ITEMS" [])
       = [EvPrint (MsgProcessing ["ROOT"; "ITEMS"; "ITEM"] "data.xml");
          EvPrint (MsgOpening DEFAULT_MONGODB_URL);
          EvConnect DEFAULT_MONGODB_URL; EvDrop example_coll] ++ rest
       /\ Forall (ingest_event example_coll) rest.
Proof.
  split; [reflexivity|]. split; [reflexivity|].
  exact (@X10_run_drops_once_then_only_inserts (on_disk anchored_doc)
           "data.xml" ["ROOT"; "ITEMS"; "ITEM"] [] DEFAULT_MONGODB_URL
           DEFAULT_DB_NAME "ITEMS" [] eq_refl eq_refl).
Defined.

(** ** [main]: the guard and the defaults *)

Lemma length_split_from (sep : ascii) (s : string) :
  forall cur, List.length (split_from sep cur s) = S (count_char sep s).
Proof.
  induction s as [|c s IH]; intros cur; simpl; [reflexivity|].
  destruct (Ascii.eqb c sep); simpl; now rewrite IH.
Qed.

Lemma length_split (sep : ascii) (s : string) :
  List.length (split sep s) = S (count_char sep s).
Proof. apply length_split_from. Qed.

Lemma index_second_last_some {A : Type} (l : list A) :
  2 <= List.length l -> exists x, index_second_last l = Some x.
Proof.
  intros H. unfold index_second_last.
  destruct (nth_error (rev l) 1) as [x|] eqn:E; [now exists x|].
  apply nth_error_None in E. rewrite length_rev in E. lia.
Qed.

(** X11.  [main] stops at its axis-path guard exactly when the repeating
    path contains no slash; a path with a slash always gets past the
    guard, and whatever happens then is not that abort. *)
Theorem X11_guard_trips_iff_no_slash
  (fs : FileSystem) (args : Args) (tr : list Event) :
  fst (main fs args tr) = Raise (NameError "sys")
  <-> count_char "/" (repeatingpath args) = 0.
Proof.
  unfold main. rewrite length_map, length_split.
  destruct (count_char "/" (repeatingpath args)) as [|k] eqn:Hk.
  - simpl. split; reflexivity.
  - replace (S (S k) <? 2)%nat with false
      by (symmetry; apply Nat.ltb_ge; lia).
    split; [|discriminate]. unfold bind.
    destruct (negb (opt_truthy (collection args))).
    + destruct (@index_second_last_some _
                  (map strip (split "/" (repeatingpath args))))
        as (parent & ->).
      { rewrite length_map, length_split. lia. }
      cbn [lift ret].
      destruct (run_trace fs (file args)
                  (map strip (split "/" (repeatingpath args)))
                  (if opt_truthy (ignore args)
                   then map strip (split "," (with_default (ignore args) ""))
                   else [])
                  (with_default (url args) DEFAULT_MONGODB_URL)
                  (with_default (database args) DEFAULT_DB_NAME) parent tr)
        as (res & rest & -> & _ & [-> |[-> | ->]] & _); discriminate.
    + cbn [ret].
      destruct (run_trace fs (file args)
                  (map strip (split "/" (repeatingpath args)))
                  (if opt_truthy (ignore args)
                   then map strip (split "," (with_default (ignore args) ""))
                   else [])
                  (with_default (url args) DEFAULT_MONGODB_URL)
                  (with_default (database args) DEFAULT_DB_NAME)
                  (with_default (collection args) "") tr)
        as (res & rest & -> & _ & [-> |[-> | ->]] & _); discriminate.
Qed.

(** X12.  Once past the guard and with no collection given (or an empty
    one), [main] uses the second-to-last segment of the axis path,
    stripped, as the collection: with names the driver accepts and a
    reachable server, that collection is dropped and is the only one
    inserted into.  URL and database fall back to their defaults when
    not given. *)
Theorem X12_collection_defaults_to_parent_segment
  (fs : FileSystem) (args : Args) (parent : string) :
  1 <= count_char "/" (repeatingpath args) ->
  opt_truthy (collection args) = false ->
  let axis_path := map strip (split "/" (repeatingpath args)) in
  index_second_last axis_path = Some parent ->
  collection_name_ok parent = true ->
  database_name_ok (with_default (database args) DEFAULT_DB_NAME) = true ->
  exists rest,
    snd (main fs args [])
    = [EvPrint (MsgProcessing axis_path (file args));
       EvPrint (MsgOpening (with_default (url args) DEFAULT_MONGODB_URL));
       EvConnect (with_default (url args) DEFAULT_MONGODB_URL);
       EvDrop {| coll_url := with_default (url args) DEFAULT_MONGODB_URL;
                 coll_db := with_default (database args) DEFAULT_DB_NAME;
                 coll_name := parent |}]
        ++ rest
    /\ Forall (ingest_event
                 {| coll_url := with_default (url args) DEFAULT_MONGODB_URL;
                    coll_db := with_default (database args) DEFAULT_DB_NAME;
                    coll_name := parent |}) rest.
Proof.
  intros Hslash Hcoll axis_path Hparent _ _.
  unfold main. fold axis_path.
  replace (List.length axis_path <? 2)%nat with false.
  2:{ symmetry. apply Nat.ltb_ge. unfold axis_path.
      rewrite length_map, length_split. lia. }
  rewrite Hcoll, Hparent. cbn [negb lift]. unfold bind, ret.
  destruct (run_trace fs (file args) axis_path
              (if opt_truthy (ignore args)
               then map strip (split "," (with_default (ignore args) ""))
               else [])
              (with_default (url args) DEFAULT_MONGODB_URL)
              (with_default (database args) DEFAULT_DB_NAME) parent [])
    as (res & rest & -> & Hrest & _).
  exists rest. cbn [snd app]. now split.
Qed.

Lemma X12_witness :
  1 <= count_char "/" "DATA/ ITEMS /ITEM"
  /\ index_second_last (map strip (split "/" "DATA/ ITEMS /ITEM"))
     = Some "ITEMS"
  /\ collection_name_ok "ITEMS" = true
  /\ database_name_ok DEFAULT_DB_NAME = true
  /\ exists rest,
       snd (main (on_disk two_items_doc)
              {| file := "data.xml"; repeatingpath := "DATA/ ITEMS /ITEM";
                 ignore := None; database := None; collection := Some "";
                 url := None |} [])
       = [EvPrint (MsgProcessing ["DATA"; "ITEMS"; "ITEM"] "data.xml");
          EvPrint (MsgOpening DEFAULT_MONGODB_URL);
          EvConnect DEFAULT_MONGODB_URL;
          EvDrop example_coll] ++ rest.
Proof.
  assert (H : 1 <= count_char "/" "DATA/ ITEMS /ITEM") by (simpl; lia).
  split; [exact H|]. split; [reflexivity|]. split; [reflexivity|].
  split; [reflexivity|].
  destruct (@X12_collection_defaults_to_parent_segment
              (on_disk two_items_doc)
              {| file := "data.xml"; repeatingpath := "DATA/ ITEMS /ITEM";
                 ignore := None; database := None; collection := Some "";
                 url := None |} "ITEMS" H eq_refl eq_refl eq_refl eq_refl)
    as (rest & Htrace & _).
  exists rest. exact Htrace.
Defined.

(** ** Matching elements sit at one depth *)

Lemma lineage_head (doc : Element) (n : Node) :
  nth_error (lineage doc n) 0 = Some (tag_at doc n).
Proof. destruct n; reflexivity. Qed.

(** X13.  An element can match only at the depth the axis path fixes,
    and its tag is the last segment; an empty axis path matches nothing.
    So of two matching elements neither lies inside the other. *)
Theorem X13_matching_elements_do_not_nest
  (doc : Element) (axis_path : list string) (n : Node) :
  is_matching_repeating_element doc axis_path n = true ->
  S (List.length n) = List.length axis_path
  /\ (exists name, index_last axis_path = Some name
                   /\ tag_at doc n = Some name)
  /\ (forall m below,
         is_matching_repeating_element doc axis_path m = true ->
         m = below ++ n -> m = n).
Proof.
  intros Hn. pose proof (is_matching_depth doc axis_path n Hn) as Hlen.
  split; [exact Hlen|]. split.
  - apply is_matching_lineage in Hn.
    pose proof (lineage_head doc n) as Hh. rewrite Hn in Hh.
    unfold index_last. destruct (rev axis_path) as [|name rest];
      simpl in Hh; [discriminate|].
    exists name. split; [reflexivity|]. now inversion Hh.
  - intros m below Hm ->. apply is_matching_depth in Hm.
    rewrite length_app in Hm. destruct below; [reflexivity|].
    simpl in Hm. lia.
Qed.

Lemma X13_witness :
  is_matching_repeating_element anchored_doc ["ROOT"; "ITEMS"; "ITEM"] [0; 0]
  = true
  /\ S (List.length [0; 0]) = List.length ["ROOT"; "ITEMS"; "ITEM"].
Proof.
  split; [reflexivity|].
  exact (proj1 (@X13_matching_elements_do_not_nest anchored_doc
                  ["ROOT"; "ITEMS"; "ITEM"] [0; 0] eq_refl)).
Defined.

Lemma X11_witness :
  count_char "/" "ITEM" = 0
  /\ fst (main (on_disk anchored_doc)
            {| file := "data.xml"; repeatingpath := "ITEM"; ignore := None;
               database := None; collection := None; url := None |} [])
     = Raise (NameError "sys").
Proof.
  split; [reflexivity|].
  apply (proj2 (@X11_guard_trips_iff_no_slash (on_disk anchored_doc)
                  {| file := "data.xml"; repeatingpath := "ITEM";
                     ignore := None; database := None; collection := None;
                     url := None |} [])).
  reflexivity.
Defined.

(** ** Blank text *)








(** ** From the command line to the collection *)

Lemma run_inserts (fs : FileSystem) (xml_filepath : string)
  (axis_path ignore_list : list string) (url dbname collname : string)
  (doc : Element) (tr : list Event) :
  fs xml_filepath = Some doc ->
  List.concat
    (inserted_batches
       (snd (run fs xml_filepath axis_path ignore_list url dbname collname tr)))
  = List.concat (inserted_batches tr)
      ++ accepted_documents doc axis_path ignore_list.
Proof.
  intros Hfile. unfold run, bind, emit.
  set (coll := {| coll_url := url; coll_db := dbname;
                  coll_name := collname |}).
  set (tr4 := (((tr ++ [EvPrint (MsgProcessing axis_path xml_filepath)])
                 ++ [EvPrint (MsgOpening url)]) ++ [EvConnect url])
                ++ [EvDrop coll]).
  pose proof (@inserted_are_accepted MDB_BATCH_INSERT_SIZE
                INSERT_COUNT_STATUS_THRESHOLD coll axis_path ignore_list fs
                xml_filepath doc tr4 Hfile) as H.
  fold (insert_array_elements_into_db fs xml_filepath axis_path ignore_list
          coll tr4) in H.
  assert (H4 : inserted_batches tr4 = inserted_batches tr).
  { unfold tr4. rewrite !inserted_batches_app. simpl.
    now rewrite !app_nil_r. }
  rewrite H4 in H. rewrite <- H.
  destruct (insert_array_elements_into_db fs xml_filepath axis_path
              ignore_list coll tr4) as [[[]|e] tr']; cbn [snd];
    [|reflexivity].
  rewrite inserted_batches_app. simpl. now rewrite app_nil_r.
Qed.

(** X15.  End to end: when the repeating path has a slash and a
    non-empty last segment, the file is well-formed, and the database
    and collection names are ones the driver accepts (with a reachable
    server), the documents [main] inserts, batch after batch, are the
    translations of the elements on the stripped axis path, with the
    stripped names of the ignore option (none when it is absent or
    empty) ignored at depth 1. *)
Theorem X15_main_inserts_the_accepted_documents
  (fs : FileSystem) (args : Args) (doc : Element) (name collname : string) :
  1 <= count_char "/" (repeatingpath args) ->
  index_last (map strip (split "/" (repeatingpath args))) = Some name ->
  str_truthy name = true ->
  chosen_collection args = Some collname ->
  collection_name_ok collname = true ->
  database_name_ok (with_default (database args) DEFAULT_DB_NAME) = true ->
  fs (file args) = Some doc ->
  List.concat (inserted_batches (snd (main fs args [])))
  = accepted_documents doc
      (map strip (split "/" (repeatingpath args)))
      (if opt_truthy (ignore args)
       then map strip (split "," (with_default (ignore args) ""))
       else []).
Proof.
  intros Hslash _ _ _ _ _ Hfile. unfold main.
  set (axis_path := map strip (split "/" (repeatingpath args))).
  assert (Hlen : 2 <= List.length axis_path).
  { unfold axis_path. rewrite length_map, length_split. lia. }
  replace (List.length axis_path <? 2)%nat with false
    by (symmetry; apply Nat.ltb_ge; exact Hlen).
  unfold bind.
  destruct (negb (opt_truthy (collection args))).
  - destruct (index_second_last_some axis_path Hlen) as (parent & ->).
    cbn [lift ret]. now rewrite run_inserts with (doc := doc).
  - cbn [ret]. now rewrite run_inserts with (doc := doc).
Qed.

Lemma X15_witness :
  1 <= count_char "/" "r/item"
  /\ index_last (map strip (split "/" "r/item")) = Some "item"
  /\ str_truthy "item" = true
  /\ chosen_collection
       {| file := "data.xml"; repeatingpath := "r/item";
          ignore := Some " note "; database := None;
          collection := None; url := None |} = Some "r"
  /\ collection_name_ok "r" = true
  /\ database_name_ok DEFAULT_DB_NAME = true
  /\ on_disk (branch "r" [ignore_example]) "data.xml"
     = Some (branch "r" [ignore_example])
  /\ List.concat
       (inserted_batches
          (snd (main (on_disk (branch "r" [ignore_example]))
                  {| file := "data.xml"; repeatingpath := "r/item";
                     ignore := Some " note "; database := None;
                     collection := None; url := None |} [])))
     = [VDict [("sub", VList [VDict [("note", VList [VStr "B"])]])]].
Proof.
  assert (H : 1 <= count_char "/" "r/item") by (simpl; lia).
  split; [exact H|]. split; [reflexivity|]. split; [reflexivity|].
  split; [reflexivity|]. split; [reflexivity|]. split; [reflexivity|].
  split; [reflexivity|].
  rewrite (@X15_main_inserts_the_accepted_documents
             (on_disk (branch "r" [ignore_example]))
             {| file := "data.xml"; repeatingpath := "r/item";
                ignore := Some " note "; database := None;
                collection := None; url := None |}
             (branch "r" [ignore_example]) "item" "r"
             H eq_refl eq_refl eq_refl eq_refl eq_refl eq_refl).
  reflexivity.
Defined.

(** ** Key collisions in a translation *)

(** Where the loop over the attributes puts a kept attribute: at the
    first underscore variant of its name that is free among the entries
    before it, which begin with the dictionary the loop started from. *)
Lemma add_attributes_stores (items : list (string * string)) :
  forall d name value,
    In (name, value) items ->
    str_truthy name = true -> str_truthy value = true ->
    exists n mid after,
      add_attributes items d
      = (d ++ mid) ++ (underscores n name, VStr value) :: after
      /\ key_in (underscores n name) (d ++ mid) = false
      /\ (forall j, j < n -> key_in (underscores j name) (d ++ mid) = true).
Proof.
  induction items as [|[k v] items IH]; intros d name value Hin Hn Hv;
    [contradiction|].
  unfold add_attributes. cbn [fold_left fst snd].
  fold (add_attributes items (set_unique_key_val_if_exists d k v)).
  destruct Hin as [E|Hin].
  - inversion E; subst k v.
    rewrite set_unique_key_val_appends by assumption.
    destruct (unique_key_spec d name) as (n & -> & Hfresh & Hbelow).
    destruct (add_attributes_shape items
                (d ++ [(underscores n name, VStr value)]))
      as (extra & -> & _).
    exists n, [], extra. rewrite app_nil_r, <- app_assoc.
    now repeat split.
  - destruct (set_unique_key_val_shape d k v) as (e1 & -> & _).
    destruct (IH (d ++ e1) name value Hin Hn Hv)
      as (n & mid & after & -> & Hfresh & Hbelow).
    exists n, (e1 ++ mid), after. rewrite !app_assoc.
    rewrite <- !app_assoc in *. rewrite !app_assoc.
    repeat split; rewrite <- ?app_assoc; assumption.
Qed.

Lemma dict_get_fresh_middle (key : string) (v : Value) (before after : dict) :
  key_in key before = false ->
  dict_get key (before ++ (key, v) :: after) = Some v.
Proof.
  intros H. rewrite dict_get_app. apply key_in_false_get in H. rewrite H.
  simpl. now rewrite String.eqb_refl.
Qed.

(** C7.  A non-empty key with a non-empty value that is already present
    in the result goes under the first underscore-prefixed variant that
    is not present, and nothing that was there is overwritten.  In a
    translation this holds for every attribute with a non-empty name and
    value (the entries from the children come first and stay as they
    are, so an attribute named like a kept child gets at least one
    underscore) and for the text of an element that has kept children or
    attributes, stored last under [val] or its first free variant. *)
Theorem C7_collision_gets_underscore_key :
  (forall d key value,
      str_truthy key = true -> str_truthy value = true ->
      key_in key d = true ->
      exists n,
        0 < n
        /\ set_unique_key_val_if_exists d key value
           = d ++ [(underscores n key, VStr value)]
        /\ key_in (underscores n key) d = false
        /\ (forall j, j < n -> key_in (underscores j key) d = true)
        /\ (forall k, key_in k d = true ->
                      dict_get k (set_unique_key_val_if_exists d key value)
                      = dict_get k d)
        /\ dict_get (underscores n key)
             (set_unique_key_val_if_exists d key value)
           = Some (VStr value))
  /\ (forall t items x cs ign depth name value,
         In (name, value) items ->
         str_truthy name = true -> str_truthy value = true ->
         let e := Elem t items x cs in
         let translate := fun c => recurse_element_descending c ign (S depth) in
         exists n before after,
           recurse_element_descending e ign depth
           = VDict (before ++ (underscores n name, VStr value) :: after)
           /\ key_in (underscores n name) before = false
           /\ (forall j, j < n -> key_in (underscores j name) before = true)
           /\ dict_get (underscores n name)
                (before ++ (underscores n name, VStr value) :: after)
              = Some (VStr value)
           /\ (forall key,
                  kept_children ign depth key e <> [] ->
                  key_in key before = true
                  /\ dict_get key
                       (before ++ (underscores n name, VStr value) :: after)
                     = Some (VList (map translate
                                      (kept_children ign depth key e))))
           /\ (kept_children ign depth name e <> [] -> 0 < n))
  /\ (forall t items cs ign depth s,
         has_text (Some s) = true ->
         let e := Elem t items (Some s) cs in
         let translate := fun c => recurse_element_descending c ign (S depth) in
         (exists key, kept_children ign depth key e <> [])
         \/ filter kept_attribute items <> [] ->
         exists n before,
           recurse_element_descending e ign depth
           = VDict (before ++ [(underscores n VALUE_FIELD_PREFIX, VStr s)])
           /\ key_in (underscores n VALUE_FIELD_PREFIX) before = false
           /\ (forall j, j < n ->
                         key_in (underscores j VALUE_FIELD_PREFIX) before
                         = true)
           /\ (forall key,
                  kept_children ign depth key e <> [] ->
                  dict_get key
                    (before ++ [(underscores n VALUE_FIELD_PREFIX, VStr s)])
                  = Some (VList (map translate
                                   (kept_children ign depth key e))))
           /\ (forall name value,
                  In (name, value) items ->
                  str_truthy name = true -> str_truthy value = true ->
                  exists m,
                    dict_get (underscores m name)
                      (before ++ [(underscores n VALUE_FIELD_PREFIX, VStr s)])
                    = Some (VStr value))).
Proof.
  split; [|split].
  - intros d key value Hk Hv Hin.
    rewrite set_unique_key_val_appends by assumption.
    destruct (unique_key_spec d key) as (n & -> & Hfresh & Hbelow).
    exists n.
    split; [|split; [reflexivity|split; [exact Hfresh|split;
                                          [exact Hbelow|split]]]].
    + destruct n as [|n]; [|lia]. simpl in Hfresh. congruence.
    + intros k Hkin. now apply dict_get_app_present.
    + rewrite dict_get_app. apply key_in_false_get in Hfresh.
      rewrite Hfresh. simpl. now rewrite String.eqb_refl.
  - intros t items x cs ign depth name value Hin Hn Hv e translate.
    unfold e. rewrite recurse_unfold. fold translate.
    pose proof (groups_children ign depth translate cs) as Hg.
    set (r := fold_left (child_step ign depth translate) cs []) in *.
    destruct (add_attributes_stores items r name value Hin Hn Hv)
      as (n & mid & after & Hattrs & Hfresh & Hbelow).
    rewrite Hattrs.
    destruct (add_text_cases x
                ((r ++ mid) ++ (underscores n name, VStr value) :: after))
      as [(extra & -> & _)|(Hnil & _)].
    2:{ apply app_eq_nil in Hnil. destruct Hnil as [_ Hnil]. discriminate. }
    exists n, (r ++ mid), (after ++ extra).
    rewrite <- (app_assoc (r ++ mid)). cbn [app].
    split; [reflexivity|]. split; [exact Hfresh|]. split; [exact Hbelow|].
    split; [now apply dict_get_fresh_middle|].
    assert (Hchild : forall key,
               kept_children ign depth key (Elem t items x cs) <> [] ->
               key_in key r = true
               /\ dict_get key r
                  = Some (VList (map translate
                                   (kept_children ign depth key
                                      (Elem t items x cs))))).
    { intros key Hkept. unfold kept_children in *. cbn [children] in *.
      fold translate in Hkept |- *. destruct Hg as [_ Hget].
      assert (Hr : dict_get key r
                   = Some (VList (map translate
                                    (group ign depth translate key cs)))).
      { rewrite Hget. now destruct (group ign depth translate key cs). }
      split; [|exact Hr].
      destruct (key_in key r) eqn:Ek; [reflexivity|].
      apply key_in_false_get in Ek. congruence. }
    split.
    + intros key Hkept. destruct (Hchild key Hkept) as [Hin_r Hget_r].
      split.
      * rewrite key_in_app, Hin_r. reflexivity.
      * rewrite <- app_assoc.
        rewrite dict_get_app_present by exact Hin_r. exact Hget_r.
    + intros Hkept. destruct (Hchild name Hkept) as [Hin_r _].
      destruct n as [|n]; [|lia]. cbn [underscores] in Hfresh.
      rewrite key_in_app, Hin_r in Hfresh. discriminate.
  - intros t items cs ign depth s Ht e translate Hsome.
    unfold e. rewrite recurse_unfold. fold translate.
    pose proof (groups_children ign depth translate cs) as Hg.
    pose proof (children_dict_empty ign depth translate cs) as Hempty.
    set (r := fold_left (child_step ign depth translate) cs []) in *.
    assert (Hchild : forall key,
               kept_children ign depth key (Elem t items (Some s) cs) <> [] ->
               key_in key r = true
               /\ dict_get key r
                  = Some (VList (map translate
                                   (kept_children ign depth key
                                      (Elem t items (Some s) cs))))).
    { intros key Hkept. unfold kept_children in *. cbn [children] in *.
      fold translate in Hkept |- *. destruct Hg as [_ Hget].
      assert (Hr : dict_get key r
                   = Some (VList (map translate
                                    (group ign depth translate key cs)))).
      { rewrite Hget. now destruct (group ign depth translate key cs). }
      split; [|exact Hr].
      destruct (key_in key r) eqn:Ek; [reflexivity|].
      apply key_in_false_get in Ek. congruence. }
    destruct Hg as [Hnd _].
    destruct (add_attributes_exact items r Hnd) as (extra & Hattrs & Hv & _).
    assert (Hne : r ++ extra <> []).
    { destruct Hsome as [(key & Hkept)|Hattr].
      - destruct (Hchild key Hkept) as [Hin_r _].
        destruct r; [discriminate|]. discriminate.
      - intros Hnil. apply app_eq_nil in Hnil. destruct Hnil as [_ Hnil].
        rewrite Hnil in Hv. simpl in Hv.
        destruct (filter kept_attribute items); [congruence|discriminate]. }
    assert (Htruthy : truthy (VDict (r ++ extra)) = true)
      by (destruct (r ++ extra); [congruence | reflexivity]).
    rewrite Hattrs. unfold add_text. rewrite Ht, Htruthy.
    rewrite set_unique_key_val_appends
      by (reflexivity || now apply has_text_truthy).
    destruct (unique_key_spec (r ++ extra) VALUE_FIELD_PREFIX)
      as (n & -> & Hfresh & Hbelow).
    exists n, (r ++ extra).
    split; [reflexivity|]. split; [exact Hfresh|]. split; [exact Hbelow|].
    split.
    + intros key Hkept. destruct (Hchild key Hkept) as [Hin_r Hget_r].
      rewrite <- app_assoc.
      rewrite dict_get_app_present by exact Hin_r. exact Hget_r.
    + intros name value Hin Hn Hval.
      destruct (add_attributes_stores items r name value Hin Hn Hval)
        as (m & mid & after & Hst & Hfr & _).
      exists m. rewrite <- Hattrs, Hst, <- app_assoc. cbn [app].
      now apply dict_get_fresh_middle.
Qed.

Lemma C7_witness :
  In ("name", "attr") [("name", "attr")]
  /\ str_truthy "name" = true /\ str_truthy "attr" = true
  /\ exists n before after,
       recurse_element_descending
         (Elem "thing" [("name", "attr")] None [leaf "name" "Bob"]) [] 1
       = VDict (before ++ (underscores n "name", VStr "attr") :: after)
       /\ key_in (underscores n "name") before = false.
Proof.
  assert (Hin : In ("name", "attr") [("name", "attr")]) by (left; reflexivity).
  split; [exact Hin|]. split; [reflexivity|]. split; [reflexivity|].
  destruct C7_collision_gets_underscore_key as (_ & Hattr & _).
  destruct (Hattr "thing" [("name", "attr")] None [leaf "name" "Bob"] [] 1
              "name" "attr" Hin eq_refl eq_refl)
    as (n & before & after & Heq & Hfresh & _).
  exists n, before, after. split; [exact Heq | exact Hfresh].
Defined.
